(** * The OptiX denoiser wrapper of Mitsuba 3 ([src/render/denoiser.cpp])

    A shallow embedding of the [Denoiser] class: its constructor, the
    tensor form of [denoise] and the [Bitmap] form with its channel
    resolver.  Device and host memory are a finite map from pointers to
    blocks; the OptiX engine and the [Bitmap] container are interfaces
    (type classes) whose operations are the calls the source makes.  Code
    runs in a state-and-error monad over a [world] holding the memory, the
    engine's private state and the log of issued engine and stream calls.
    The teardown and the description of a [Denoiser] and the constructor of
    [ShapeGroup] ([src/render/shapegroup.cpp]) follow the denoiser. *)

From Stdlib Require Import ZArith NArith String Ascii Lia.
From Stdlib Require Import Floats.SpecFloat.
From stdpp Require Import gmap strings list fin_maps.

Local Open Scope N_scope.

(** ** Scalars *)

(** A single-precision value; unary minus is the IEEE 754 [negate]
    operation, which flips the sign and nothing else. *)
Definition float : Type := spec_float.
Definition fzero : float := S754_zero false.
Definition fneg (x : float) : float := SFopp x.

(** [size_t] and [unsigned int] arithmetic. *)
Definition size_t_max : N := 2 ^ 64.
Definition size_t_mul (a b : N) : N := (a * b) mod size_t_max.
Definition to_uint (x : N) : N := x mod 2 ^ 32.
Definition sizeof_float : N := 4.

(** ** Memory *)

(** [AllocType] of the allocator, restricted to the two kinds the file uses. *)
Inductive AllocType : Type := Host | Device.

#[global] Instance AllocType_eq_dec : EqDecision AllocType.
Proof. solve_decision. Defined.

(** A block is either an array of floats or a raw region of a given size
    in bytes whose contents belong to the engine. *)
Inductive block : Type :=
| Floats (kind : AllocType) (data : list float)
| Raw (kind : AllocType) (size : N).

Definition block_kind (b : block) : AllocType :=
  match b with Floats k _ => k | Raw k _ => k end.

(** Pointers are block addresses; [0] is the null pointer. *)
Definition nullptr : N := 0.

(** ** OptiX data types *)

Inductive OptixPixelFormat : Type :=
| OPTIX_PIXEL_FORMAT_ZERO   (* the value of a zero-initialised field *)
| OPTIX_PIXEL_FORMAT_FLOAT2
| OPTIX_PIXEL_FORMAT_FLOAT3
| OPTIX_PIXEL_FORMAT_FLOAT4.

Record OptixImage2D : Type := mkImage2D {
  img_data : N;
  img_width : N;
  img_height : N;
  img_rowStrideInBytes : N;
  img_pixelStrideInBytes : N;
  img_format : OptixPixelFormat
}.

(** [OptixImage2D x = {}] *)
Definition zero_image : OptixImage2D :=
  mkImage2D nullptr 0 0 0 0 OPTIX_PIXEL_FORMAT_ZERO.

Record OptixDenoiserLayer : Type := mkLayer {
  layer_input : OptixImage2D;
  layer_previousOutput : OptixImage2D;
  layer_output : OptixImage2D
}.

Record OptixDenoiserGuideLayer : Type := mkGuideLayer {
  guide_albedo : OptixImage2D;
  guide_normal : OptixImage2D;
  guide_flow : OptixImage2D
}.

Record OptixDenoiserOptions : Type := mkOptions {
  guideAlbedo : bool;
  guideNormal : bool
}.

Record OptixDenoiserParams : Type := mkParams {
  denoiseAlpha : bool;
  hdrIntensity : N;
  blendFactor : float;
  hdrAverageColor : N
}.

Inductive OptixDenoiserModelKind : Type :=
| OPTIX_DENOISER_MODEL_KIND_HDR
| OPTIX_DENOISER_MODEL_KIND_TEMPORAL.

Record OptixDenoiserSizes : Type := mkSizes {
  stateSizeInBytes : N;
  withoutOverlapScratchSizeInBytes : N
}.

(** [OptixResult]: [0] is [OPTIX_SUCCESS]. *)
Definition OptixResult : Type := Z.
Definition OPTIX_SUCCESS : OptixResult := 0%Z.

(** ** The external engine *)

(** The calls of the OptiX API the file makes, with the arguments of the
    source.  The engine reads guide and input images through the memory it
    is handed, keeps its history in [optix_state] (the contents of the state,
    scratch and intensity buffers), and [optixDenoiserInvoke] returns the
    pixels it writes to the output image. *)
Class OptixAPI : Type := {
  optix_state : Type;
  jit_optix_context : N;
  jit_cuda_stream : N;
  optixDenoiserCreate :
    N → OptixDenoiserModelKind → OptixDenoiserOptions → optix_state →
    OptixResult * N * optix_state;
  optixDenoiserComputeMemoryResources :
    N → N → N → optix_state → OptixResult * OptixDenoiserSizes;
  optixDenoiserSetup :
    N → N → N → N → N → N → N → N → optix_state → OptixResult * optix_state;
  optixDenoiserComputeIntensity :
    N → N → OptixImage2D → N → N → N → gmap N block → optix_state →
    OptixResult * optix_state;
  optixDenoiserInvoke :
    N → N → OptixDenoiserParams → N → N → OptixDenoiserGuideLayer →
    OptixDenoiserLayer → N → N → N → N → N → gmap N block → optix_state →
    OptixResult * optix_state * list float
}.

(** ** Images *)

Inductive PixelFormat : Type :=
| PF_Y | PF_YA | PF_RGB | PF_RGBA | PF_RGBW | PF_RGBAW | PF_XYZ | PF_XYZA
| PF_MultiChannel.

#[global] Instance PixelFormat_eq_dec : EqDecision PixelFormat.
Proof. solve_decision. Defined.

Inductive StructType : Type := Float16 | Float32 | Float64 | UInt8.

(** A [Bitmap] as the arguments of its constructor: pixel format, component
    format, size [(width, height)], channel count and the host buffer. *)
Record Bitmap : Type := mkBitmap {
  bmp_pixel_format : PixelFormat;
  bmp_component_format : StructType;
  bmp_size : N * N;
  bmp_channel_count : N;
  bmp_data : N
}.

#[global] Instance StructType_eq_dec : EqDecision StructType.
Proof. solve_decision. Defined.

#[global] Instance Bitmap_eq_dec : EqDecision Bitmap.
Proof. solve_decision. Defined.

Definition bmp_width (b : Bitmap) : N := fst (bmp_size b).
Definition bmp_height (b : Bitmap) : N := snd (bmp_size b).

(** The multi-layer image container: [split()] and [to_string()]. *)
Class BitmapAPI : Type := {
  Bitmap_split : Bitmap → list (string * Bitmap);
  Bitmap_to_string : Bitmap → string
}.

(** ** Tensors *)

(** A [TensorXf]: the storage of its array and its shape. *)
Record TensorXf : Type := mkTensor {
  t_array : N;
  t_shape : list N
}.

(** [tensor.shape(i)]; the tensors of this class have three dimensions, a
    dimension that is not there reads as [0]. *)
Definition shape (t : TensorXf) (i : nat) : N := default 0 (t_shape t !! i).

(** [tensor.data()] *)
Definition t_data (t : TensorXf) : N := t_array t.

(** [optixImage2DfromTensor] *)
Definition optixImage2DfromTensor (tensor : TensorXf)
    (pixel_format : OptixPixelFormat) : OptixImage2D :=
  {| img_data := t_data tensor;
     img_width := to_uint (shape tensor 1);
     img_height := to_uint (shape tensor 0);
     img_rowStrideInBytes :=
       to_uint (size_t_mul (size_t_mul (shape tensor 1) (shape tensor 2))
                           sizeof_float);
     img_pixelStrideInBytes := to_uint (size_t_mul (shape tensor 2) sizeof_float);
     img_format := pixel_format |}.

(** ** Dr.Jit array operations on the contents of an array *)

(** [dr::arange<UInt32>(start, stop, step)]: the number of entries is
    computed in [ssize_t], the entries in [UInt32]. *)
Definition dr_arange (start stop step : Z) : list nat :=
  let size :=
    Z.quot (stop - start + step - (if (0 <? step)%Z then 1 else -1)) step in
  (λ k : nat, Z.to_nat ((start + Z.of_nat k * step) mod 2 ^ 32))
    <$> seq 0 (Z.to_nat size).

(** [dr::gather<Float>(source, index)]; an index outside the array has no
    defined value. *)
Definition dr_gather (source : list float) (index : list nat)
    : option (list float) :=
  mapM (λ i, source !! i) index.

(** [dr::scatter(target, value, index)]: entries are written in order; an
    index outside the array is not a defined write. *)
Fixpoint dr_scatter (target : list float) (value : list float)
    (index : list nat) : option (list float) :=
  match value, index with
  | v :: value', i :: index' =>
      if decide (i < length target)%nat
      then dr_scatter (<[i := v]> target) value' index'
      else None
  | _, _ => Some target
  end.

(** ** The world and the monad *)

(** What the code throws or runs into. *)
Inductive error : Type :=
| Exception (msg : string)     (* [Throw(...)] *)
| OptixError (code : Z)        (* [jit_optix_check] on a failed call *)
| NullDeref                    (* [*p] with [p == nullptr] *)
| MemoryFault.                 (* access outside an allocated array *)

Inductive result (A : Type) : Type :=
| Ok (a : A)
| Err (e : error).
Arguments Ok {A} a.
Arguments Err {A} e.

(** The log of calls issued to the engine, the allocator and the stream. *)
Inductive event : Type :=
| EvCreate (context : N) (kind : OptixDenoiserModelKind)
    (options : OptixDenoiserOptions)
| EvComputeMemoryResources (denoiser width height : N)
| EvSetup (denoiser stream width height state state_size scratch scratch_size : N)
| EvComputeIntensity (denoiser stream : N) (input : OptixImage2D)
    (intensity scratch scratch_size : N)
| EvInvoke (denoiser stream : N) (params : OptixDenoiserParams)
    (state state_size : N) (guide : OptixDenoiserGuideLayer)
    (layers : OptixDenoiserLayer) (num_layers offset_x offset_y : N)
    (scratch scratch_size : N)
| EvMallocMigrate (src dst : N) (type : AllocType)
| EvSyncThread.

Section Denoiser.
Context {optix : OptixAPI} {bitmaps : BitmapAPI}.

Record world : Type := mkWorld {
  w_mem : gmap N block;
  w_optix : optix_state;
  w_trace : list event
}.

(** A computation runs on a world and ends with a value or an error; the
    world reached is kept in both cases. *)
Definition M (A : Type) : Type := world → result A * world.

Definition ret {A} (a : A) : M A := λ w, (Ok a, w).

Definition bind {A B} (m : M A) (k : A → M B) : M B :=
  λ w, match m w with
       | (Ok a, w') => k a w'
       | (Err e, w') => (Err e, w')
       end.

Definition throw {A} (e : error) : M A := λ w, (Err e, w).

#[global] Instance M_ret : MRet M := @ret.
#[global] Instance M_bind : MBind M := λ A B k m, bind m k.

(** *** Allocator and stream *)

(** A pointer the allocator has not handed out, never null. *)
Definition fresh_ptr (mem : gmap N block) : N := fresh ({[nullptr]} ∪ dom mem).

Definition alloc (b : block) : M N :=
  λ w, let p := fresh_ptr (w_mem w) in
       (Ok p, mkWorld (<[p := b]> (w_mem w)) (w_optix w) (w_trace w)).

(** [jit_malloc(type, size)] *)
Definition jit_malloc (type : AllocType) (size : N) : M N :=
  alloc (Raw type size).

(** The contents of the float array stored at [p]. *)
Definition read_floats (p : N) : M (list float) :=
  λ w, match w_mem w !! p with
       | Some (Floats _ l) => (Ok l, w)
       | _ => (Err MemoryFault, w)
       end.

(** Replace the contents of the float array stored at [p]. *)
Definition write_floats (p : N) (l : list float) : M unit :=
  λ w, match w_mem w !! p with
       | Some (Floats k _) =>
           (Ok tt, mkWorld (<[p := Floats k l]> (w_mem w)) (w_optix w) (w_trace w))
       | _ => (Err MemoryFault, w)
       end.

Definition log (e : event) : M unit :=
  λ w, (Ok tt, mkWorld (w_mem w) (w_optix w) (w_trace w ++ [e])).

(** The block [b] in memory of kind [type]. *)
Definition retype (type : AllocType) (b : block) : block :=
  match b with
  | Floats _ l => Floats type l
  | Raw _ n => Raw type n
  end.

(** [jit_malloc_migrate(ptr, type, move = false)]: the block is copied into
    newly allocated memory of the requested kind and stays where it is. *)
Definition jit_malloc_migrate (ptr : N) (type : AllocType) : M N :=
  λ w, match w_mem w !! ptr with
       | Some b =>
           (dst ← alloc (retype type b);
            log (EvMallocMigrate ptr dst type);;
            mret dst) w
       | None => (Err MemoryFault, w)
       end.

(** [jit_sync_thread()] *)
Definition jit_sync_thread : M unit := log EvSyncThread.

(** [jit_optix_check(rv)] *)
Definition jit_optix_check (rv : OptixResult) : M unit :=
  if decide (rv = OPTIX_SUCCESS) then ret tt else throw (OptixError rv).

(** *** Tensor operations *)

(** [tensor.size()]: the number of entries of the array. *)
Definition t_size (t : TensorXf) : M N :=
  l ← read_floats (t_array t); ret (N.of_nat (length l)).

(** The product of a shape, in [size_t]. *)
Definition shape_size (sh : list N) : N := foldr size_t_mul 1 sh.

(** [TensorXf(data, ndim, shape)]: the first [shape_size shape] floats
    stored at [data] are loaded into a new device array. *)
Definition TensorXf_from_data (data : N) (sh : list N) : M TensorXf :=
  l ← read_floats data;
  let n := N.to_nat (shape_size sh) in
  if decide (n ≤ length l)%nat then
    p ← alloc (Floats Device (take n l));
    ret (mkTensor p sh)
  else throw MemoryFault.

(** [TensorXf(other)]: the copy has an array of its own. *)
Definition TensorXf_copy (t : TensorXf) : M TensorXf :=
  l ← read_floats (t_array t);
  p ← alloc (Floats Device l);
  ret (mkTensor p (t_shape t)).

(** [dr::empty<Array>(size)]: a new device array; its entries are not
    initialised, here they start at zero. *)
Definition dr_empty (size : N) : M N :=
  alloc (Floats Device (replicate (N.to_nat size) fzero)).

(** [dr::gather<Float>(t->array(), index)] *)
Definition gather (t : TensorXf) (index : list nat) : M (list float) :=
  l ← read_floats (t_array t);
  match dr_gather l index with
  | Some v => ret v
  | None => throw MemoryFault
  end.

(** [dr::scatter(t->array(), value, index)] *)
Definition scatter (t : TensorXf) (value : list float) (index : list nat)
    : M unit :=
  l ← read_floats (t_array t);
  match dr_scatter l value index with
  | Some l' => write_floats (t_array t) l'
  | None => throw MemoryFault
  end.

(** [*p] for a nullable pointer to a tensor. *)
Definition deref (p : option TensorXf) : M TensorXf :=
  match p with
  | Some t => ret t
  | None => throw NullDeref
  end.

(** *** Engine calls

    Each call is logged with its arguments, advances the engine state and
    yields the engine's result code. *)

Definition call_optixDenoiserCreate (context : N)
    (kind : OptixDenoiserModelKind) (options : OptixDenoiserOptions)
    : M (OptixResult * N) :=
  λ w, let '(rv, handle, s) :=
         optixDenoiserCreate context kind options (w_optix w) in
       (Ok (rv, handle),
        mkWorld (w_mem w) s (w_trace w ++ [EvCreate context kind options])).

Definition call_optixDenoiserComputeMemoryResources (denoiser width height : N)
    : M (OptixResult * OptixDenoiserSizes) :=
  λ w, (Ok (optixDenoiserComputeMemoryResources denoiser width height (w_optix w)),
        mkWorld (w_mem w) (w_optix w)
          (w_trace w ++ [EvComputeMemoryResources denoiser width height])).

Definition call_optixDenoiserSetup
    (denoiser stream width height state state_size scratch scratch_size : N)
    : M OptixResult :=
  λ w, let '(rv, s) :=
         optixDenoiserSetup denoiser stream width height state state_size
           scratch scratch_size (w_optix w) in
       (Ok rv,
        mkWorld (w_mem w) s
          (w_trace w ++ [EvSetup denoiser stream width height state state_size
                           scratch scratch_size])).

Definition call_optixDenoiserComputeIntensity (denoiser stream : N)
    (input : OptixImage2D) (intensity scratch scratch_size : N)
    : M OptixResult :=
  λ w, let '(rv, s) :=
         optixDenoiserComputeIntensity denoiser stream input intensity scratch
           scratch_size (w_mem w) (w_optix w) in
       (Ok rv,
        mkWorld (w_mem w) s
          (w_trace w ++ [EvComputeIntensity denoiser stream input intensity
                           scratch scratch_size])).

(** The pixels the engine produced overwrite the array behind the output
    image, entry by entry, as far as the array reaches. *)
Definition overwrite (old new : list float) : list float :=
  take (length old) (new ++ drop (length new) old).

Definition engine_store (p : N) (out : list float) (mem : gmap N block)
    : gmap N block :=
  match mem !! p with
  | Some (Floats k old) => <[p := Floats k (overwrite old out)]> mem
  | _ => mem
  end.

Definition call_optixDenoiserInvoke (denoiser stream : N)
    (params : OptixDenoiserParams) (state state_size : N)
    (guide : OptixDenoiserGuideLayer) (layers : OptixDenoiserLayer)
    (num_layers offset_x offset_y scratch scratch_size : N)
    : M OptixResult :=
  λ w, let '(rv, s, out) :=
         optixDenoiserInvoke denoiser stream params state state_size guide
           layers num_layers offset_x offset_y scratch scratch_size
           (w_mem w) (w_optix w) in
       (Ok rv,
        mkWorld (engine_store (img_data (layer_output layers)) out (w_mem w)) s
          (w_trace w ++ [EvInvoke denoiser stream params state state_size guide
                           layers num_layers offset_x offset_y scratch
                           scratch_size])).

(** [optix_initialize()] loads the entry points of the OptiX library; it
    touches neither the memory nor the engine state. *)
Definition optix_initialize : M unit := ret tt.

(** ** The [Denoiser] class *)

Record Denoiser : Type := mkDenoiser {
  m_denoiser : N;
  m_options : OptixDenoiserOptions;
  m_state_size : N;
  m_state : N;
  m_scratch_size : N;
  m_scratch : N;
  m_hdr_intensity : N;
  m_temporal : bool
}.

Definition normals_without_albedo_msg : string :=
  "The denoiser cannot use normals to guide its process without also providing albedo information!".

(** [Denoiser::Denoiser(input_size, albedo, normals, temporal)] *)
Definition Denoiser_new (input_size : N * N) (albedo normals temporal : bool)
    : M Denoiser :=
  if normals && negb albedo then throw (Exception normals_without_albedo_msg)
  else
    optix_initialize;;
    let context := jit_optix_context in
    let options := mkOptions albedo normals in
    let model_kind := if temporal then OPTIX_DENOISER_MODEL_KIND_TEMPORAL
                      else OPTIX_DENOISER_MODEL_KIND_HDR in
    r ← call_optixDenoiserCreate context model_kind options;
    jit_optix_check (fst r);;
    let denoiser := snd r in
    q ← call_optixDenoiserComputeMemoryResources denoiser
          (fst input_size) (snd input_size);
    jit_optix_check (fst q);;
    let sizes := snd q in
    let stream := jit_cuda_stream in
    let state_size := stateSizeInBytes sizes in
    state ← jit_malloc Device state_size;
    let scratch_size := withoutOverlapScratchSizeInBytes sizes in
    scratch ← jit_malloc Device scratch_size;
    rv ← call_optixDenoiserSetup denoiser stream (fst input_size)
           (snd input_size) state state_size scratch scratch_size;
    jit_optix_check rv;;
    hdr_intensity ← jit_malloc Device sizeof_float;
    ret (mkDenoiser denoiser options state_size state scratch_size scratch
           hdr_intensity temporal).

(** The coordinate change applied to the copy of the normals: the entries
    at [0, 3, 6, ...] and then those at [2, 5, 8, ...] are gathered,
    negated and scattered back. *)
Definition correct_normals (corrected_normals : TensorXf) : M unit :=
  n ← t_size corrected_normals;
  let x_idx := dr_arange 0 (Z.of_N n) 3 in
  x_values ← gather corrected_normals x_idx;
  scatter corrected_normals (fneg <$> x_values) x_idx;;
  n ← t_size corrected_normals;
  let z_idx := dr_arange 2 (Z.of_N n) 3 in
  z_values ← gather corrected_normals z_idx;
  scatter corrected_normals (fneg <$> z_values) z_idx.

(** [Denoiser::denoise(noisy, albedo, normals, previous_denoised, flow)] *)
Definition denoise (d : Denoiser) (noisy : TensorXf)
    (albedo normals previous_denoised flow : option TensorXf) : M TensorXf :=
  let input_pixel_format :=
    if decide (shape noisy 2 = 3) then OPTIX_PIXEL_FORMAT_FLOAT3
    else OPTIX_PIXEL_FORMAT_FLOAT4 in
  let input := optixImage2DfromTensor noisy input_pixel_format in
  n ← t_size noisy;
  output_data ← dr_empty n;
  let output := mkImage2D output_data (img_width input) (img_height input)
                  (img_rowStrideInBytes input) (img_pixelStrideInBytes input)
                  (img_format input) in
  let stream := jit_cuda_stream in
  rv ← call_optixDenoiserComputeIntensity (m_denoiser d) stream input
         (m_hdr_intensity d) (m_scratch d) (m_scratch_size d);
  jit_optix_check rv;;
  let params := mkParams true (m_hdr_intensity d) fzero nullptr in
  guide_albedo ←
    (if guideAlbedo (m_options d) then
       a ← deref albedo;
       ret (optixImage2DfromTensor a OPTIX_PIXEL_FORMAT_FLOAT3)
     else ret zero_image);
  guide_normal ←
    (if guideNormal (m_options d) then
       nrm ← deref normals;
       corrected_normals ← TensorXf_copy nrm;
       correct_normals corrected_normals;;
       ret (optixImage2DfromTensor corrected_normals OPTIX_PIXEL_FORMAT_FLOAT3)
     else ret zero_image);
  temporal_layers ←
    (if m_temporal d then
       f ← deref flow;
       p ← deref previous_denoised;
       ret (optixImage2DfromTensor f OPTIX_PIXEL_FORMAT_FLOAT2,
            optixImage2DfromTensor p input_pixel_format)
     else ret (zero_image, zero_image));
  let guide_layer := mkGuideLayer guide_albedo guide_normal (fst temporal_layers) in
  let layers := mkLayer input (snd temporal_layers) output in
  rv ← call_optixDenoiserInvoke (m_denoiser d) stream params (m_state d)
         (m_state_size d) guide_layer layers 1 0 0 (m_scratch d)
         (m_scratch_size d);
  jit_optix_check rv;;
  ret (mkTensor output_data [shape noisy 0; shape noisy 1; shape noisy 2]).

(** *** The channel resolver of the [Bitmap] form *)

(** The local variables of the scan. *)
Record resolver : Type := mkResolver {
  noisy_bmp : option Bitmap;
  albedo_bmp : option Bitmap;
  normals_bmp : option Bitmap;
  flow_bmp : option Bitmap;
  previous_denoised_bmp : option Bitmap;
  found_albedo : bool;
  found_normals : bool;
  found_flow : bool;
  found_previous_denoised : bool
}.

Section Resolver.
Variables albedo_ch normals_ch flow_ch previous_denoised_ch noisy_ch : string.

(** The variables before the loop. *)
Definition resolver_init : resolver :=
  mkResolver None None None None None
    (String.eqb albedo_ch EmptyString)
    (String.eqb normals_ch EmptyString)
    (String.eqb flow_ch EmptyString)
    (String.eqb previous_denoised_ch EmptyString).

(** The break condition at the head of the loop body. *)
Definition resolver_done (s : resolver) : bool :=
  found_albedo s && found_normals s && found_flow s &&
  found_previous_denoised s && bool_decide (noisy_bmp s ≠ None).

(** [if (!found_albedo && pair.first == albedo_ch) { ... }] *)
Definition match_albedo (s : resolver) (entry : string * Bitmap) : resolver :=
  if negb (found_albedo s) && String.eqb (fst entry) albedo_ch
  then mkResolver (noisy_bmp s) (Some (snd entry)) (normals_bmp s) (flow_bmp s)
         (previous_denoised_bmp s) true (found_normals s) (found_flow s)
         (found_previous_denoised s)
  else s.

(** [if (!found_normals && pair.first == normals_ch) { ... }] *)
Definition match_normals (s : resolver) (entry : string * Bitmap) : resolver :=
  if negb (found_normals s) && String.eqb (fst entry) normals_ch
  then mkResolver (noisy_bmp s) (albedo_bmp s) (Some (snd entry)) (flow_bmp s)
         (previous_denoised_bmp s) (found_albedo s) true (found_flow s)
         (found_previous_denoised s)
  else s.

(** [if (!found_flow && pair.first == flow_ch) { ... }] *)
Definition match_flow (s : resolver) (entry : string * Bitmap) : resolver :=
  if negb (found_flow s) && String.eqb (fst entry) flow_ch
  then mkResolver (noisy_bmp s) (albedo_bmp s) (normals_bmp s)
         (Some (snd entry)) (previous_denoised_bmp s) (found_albedo s)
         (found_normals s) true (found_previous_denoised s)
  else s.

(** [if (!found_previous_denoised && pair.first == previous_denoised_ch)
    { ... }] *)
Definition match_previous_denoised (s : resolver) (entry : string * Bitmap)
    : resolver :=
  if negb (found_previous_denoised s)
     && String.eqb (fst entry) previous_denoised_ch
  then mkResolver (noisy_bmp s) (albedo_bmp s) (normals_bmp s) (flow_bmp s)
         (Some (snd entry)) (found_albedo s) (found_normals s) (found_flow s)
         true
  else s.

(** [if (noisy_bmp == nullptr && pair.first == noisy_ch) ...] *)
Definition match_noisy (s : resolver) (entry : string * Bitmap) : resolver :=
  if bool_decide (noisy_bmp s = None) && String.eqb (fst entry) noisy_ch
  then mkResolver (Some (snd entry)) (albedo_bmp s) (normals_bmp s) (flow_bmp s)
         (previous_denoised_bmp s) (found_albedo s) (found_normals s)
         (found_flow s) (found_previous_denoised s)
  else s.

(** The five tests of the loop body, in order. *)
Definition resolver_step (s : resolver) (entry : string * Bitmap) : resolver :=
  match_noisy
    (match_previous_denoised
       (match_flow (match_normals (match_albedo s entry) entry) entry) entry)
    entry.

(** [for (const auto &pair : res) { if (...) break; ... }] *)
Fixpoint resolver_loop (res : list (string * Bitmap)) (s : resolver) : resolver :=
  match res with
  | [] => s
  | entry :: res' =>
      if resolver_done s then s
      else resolver_loop res' (resolver_step s entry)
  end.

Definition resolve (res : list (string * Bitmap)) : resolver :=
  resolver_loop res resolver_init.

End Resolver.

Definition newline : string := String (ascii_of_nat 10) EmptyString.

(** The text of [throw_missing_channel(channel)]. *)
Definition missing_channel_msg (noisy_ : Bitmap) (channel : string) : string :=
  "Could not find rendered image with channel name '" ++ channel ++ "' in:"
    ++ newline ++ Bitmap_to_string noisy_.

Definition throw_missing_channel (noisy_ : Bitmap) (channel : string) : M unit :=
  throw (Exception (missing_channel_msg noisy_ channel)).

(** The five checks after the loop. *)
Definition check_channels (noisy_ : Bitmap)
    (albedo_ch normals_ch flow_ch previous_denoised_ch noisy_ch : string)
    (s : resolver) : M unit :=
  (if bool_decide (noisy_bmp s = None)
   then throw_missing_channel noisy_ noisy_ch else mret tt);;
  (if negb (found_albedo s)
   then throw_missing_channel noisy_ albedo_ch else mret tt);;
  (if negb (found_normals s)
   then throw_missing_channel noisy_ normals_ch else mret tt);;
  (if negb (found_flow s)
   then throw_missing_channel noisy_ flow_ch else mret tt);;
  (if negb (found_previous_denoised s)
   then throw_missing_channel noisy_ previous_denoised_ch else mret tt).

(** [if (bmp != nullptr) t = std::make_unique<TensorXf>(bmp->data(), 3, shape)] *)
Definition tensor_of_bmp (bmp : option Bitmap) (sh : list N)
    : M (option TensorXf) :=
  match bmp with
  | Some b => t ← TensorXf_from_data (bmp_data b) sh; mret (Some t)
  | None => mret None
  end.

(** The tail shared by both modes: the result is migrated to the host, the
    thread is synchronised and the host buffer is wrapped in a [Bitmap]. *)
Definition wrap_denoised (denoised : TensorXf) : M Bitmap :=
  denoised_data ← jit_malloc_migrate (t_data denoised) Host;
  jit_sync_thread;;
  mret (mkBitmap
          (if decide (shape denoised 2 = 3) then PF_RGB else PF_RGBA)
          Float32
          (to_uint (shape denoised 1), to_uint (shape denoised 0))
          (shape denoised 2)
          denoised_data).

(** [Denoiser::denoise(noisy_, albedo_ch, normals_ch, flow_ch,
    previous_denoised_ch, noisy_ch)] *)
Definition denoise_bitmap (d : Denoiser) (noisy_ : Bitmap)
    (albedo_ch normals_ch flow_ch previous_denoised_ch noisy_ch : string)
    : M Bitmap :=
  let noisy_tensor_shape :=
    [bmp_height noisy_; bmp_width noisy_; bmp_channel_count noisy_] in
  if decide (bmp_pixel_format noisy_ ≠ PF_MultiChannel) then
    noisy_tensor ← TensorXf_from_data (bmp_data noisy_) noisy_tensor_shape;
    denoised ← denoise d noisy_tensor None None None None;
    wrap_denoised denoised
  else
    let res := Bitmap_split noisy_ in
    let s := resolve albedo_ch normals_ch flow_ch previous_denoised_ch
               noisy_ch res in
    check_channels noisy_ albedo_ch normals_ch flow_ch previous_denoised_ch
      noisy_ch s;;
    nb ← (match noisy_bmp s with
          | Some b => mret b
          | None => throw NullDeref
          end);
    let noisy_tensor_shape :=
      [bmp_height noisy_; bmp_width noisy_; bmp_channel_count nb] in
    noisy_tensor ← TensorXf_from_data (bmp_data nb) noisy_tensor_shape;
    albedo_tensor ←
      tensor_of_bmp (albedo_bmp s) [bmp_height noisy_; bmp_width noisy_; 3];
    normals_tensor ←
      tensor_of_bmp (normals_bmp s) [bmp_height noisy_; bmp_width noisy_; 3];
    flow_tensor ←
      tensor_of_bmp (flow_bmp s) [bmp_height noisy_; bmp_width noisy_; 2];
    previous_denoised_tensor ←
      tensor_of_bmp (previous_denoised_bmp s) noisy_tensor_shape;
    denoised ← denoise d noisy_tensor albedo_tensor normals_tensor
                 flow_tensor previous_denoised_tensor;
    wrap_denoised denoised.

End Denoiser.

(** ** Teardown and description of a [Denoiser] *)

(** [optixDenoiserDestroy], the one call of the engine made at teardown. *)
Class OptixTeardownAPI {optix : OptixAPI} : Type := {
  optixDenoiserDestroy : N → optix_state → OptixResult * optix_state
}.

Section Teardown.
Context {optix : OptixAPI} {teardown : OptixTeardownAPI}.

(** [jit_free(ptr)]: a null pointer is ignored, the block of any other
    pointer is released; a pointer the allocator does not know is an error
    of the allocator. *)
Definition jit_free (ptr : N) : M unit :=
  λ w, if decide (ptr = nullptr) then (Ok tt, w)
       else match w_mem w !! ptr with
            | Some _ =>
                (Ok tt, mkWorld (delete ptr (w_mem w)) (w_optix w) (w_trace w))
            | None => (Err MemoryFault, w)
            end.

(** The call advances the engine state; the log keeps the calls of
    construction and denoising only. *)
Definition call_optixDenoiserDestroy (denoiser : N) : M OptixResult :=
  λ w, let '(rv, s) := optixDenoiserDestroy denoiser (w_optix w) in
       (Ok rv, mkWorld (w_mem w) s (w_trace w)).

(** [Denoiser::~Denoiser()] *)
Definition Denoiser_delete (d : Denoiser) : M unit :=
  rv ← call_optixDenoiserDestroy (m_denoiser d);
  jit_optix_check rv;;
  jit_free (m_hdr_intensity d);;
  jit_free (m_state d);;
  jit_free (m_scratch d).

End Teardown.

(** [oss << b] for a flag: [1] or [0]. *)
Definition show_flag (b : bool) : string := if b then "1" else "0".

(** [Denoiser::to_string()] *)
Definition Denoiser_to_string (d : Denoiser) : string :=
  "Denoiser[" ++ newline
    ++ "  albedo = " ++ show_flag (guideAlbedo (m_options d)) ++ "," ++ newline
    ++ "  normals = " ++ show_flag (guideNormal (m_options d)) ++ "," ++ newline
    ++ "  temporal = " ++ show_flag (m_temporal d) ++ newline
    ++ "]".

(** The three buffers of the instance [d] are allocated in [w], at three
    different addresses. *)
Definition buffers_allocated {optix : OptixAPI} (d : Denoiser) (w : world)
    : Prop :=
  NoDup [m_hdr_intensity d; m_state d; m_scratch d]
  ∧ Forall (λ p, p ≠ nullptr ∧ is_Some (w_mem w !! p))
      [m_hdr_intensity d; m_state d; m_scratch d].

(** The pixel format the tensor form derives from the noisy tensor. *)
Definition input_format (noisy : TensorXf) : OptixPixelFormat :=
  if decide (shape noisy 2 = 3) then OPTIX_PIXEL_FORMAT_FLOAT3
  else OPTIX_PIXEL_FORMAT_FLOAT4.

(** The log entries of the two engine calls of the tensor form. *)
Definition intensity_event {optix : OptixAPI} (d : Denoiser)
    (noisy : TensorXf) : event :=
  EvComputeIntensity (m_denoiser d) jit_cuda_stream
    (optixImage2DfromTensor noisy (input_format noisy)) (m_hdr_intensity d)
    (m_scratch d) (m_scratch_size d).

Definition invoke_event {optix : OptixAPI} (d : Denoiser)
    (guide : OptixDenoiserGuideLayer) (layers : OptixDenoiserLayer) : event :=
  EvInvoke (m_denoiser d) jit_cuda_stream
    (mkParams true (m_hdr_intensity d) fzero nullptr) (m_state d)
    (m_state_size d) guide layers 1 0 0 (m_scratch d) (m_scratch_size d).

(** The descriptor built from an optional tensor under a flag, and the
    zero-initialised one otherwise. *)
Definition guarded_image (flag : bool) (t : option TensorXf)
    (pixel_format : OptixPixelFormat) : OptixImage2D :=
  if flag
  then from_option (λ x, optixImage2DfromTensor x pixel_format) zero_image t
  else zero_image.

(** An optional guide that the configuration of [d] reads has no channel
    name in a call of the [Bitmap] form. *)
Definition unrequested_input (d : Denoiser)
    (albedo_ch normals_ch flow_ch previous_denoised_ch : string) : Prop :=
  (guideAlbedo (m_options d) = true ∧ albedo_ch = EmptyString)
  ∨ (guideNormal (m_options d) = true ∧ normals_ch = EmptyString)
  ∨ (m_temporal d = true
     ∧ (flow_ch = EmptyString ∨ previous_denoised_ch = EmptyString)).

(** ** Notions used to state the properties *)

(** The array [l] with the entries at the positions listed in [index]
    negated. *)
Definition negate_at (index : list nat) (l : list float) : list float :=
  imap (λ j x, if bool_decide (j ∈ index) then fneg x else x) l.

(** The contents of the normals array after the coordinate change. *)
Definition corrected (l : list float) : list float :=
  negate_at (dr_arange 2 (Z.of_nat (length l)) 3)
    (negate_at (dr_arange 0 (Z.of_nat (length l)) 3) l).

(** [p] points to an array of floats. *)
Definition is_floats (mem : gmap N block) (p : N) : Prop :=
  ∃ k l, mem !! p = Some (Floats k l).

(** [p] points to an array of at least [n] floats. *)
Definition holds_floats (mem : gmap N block) (p n : N) : Prop :=
  ∃ k l, mem !! p = Some (Floats k l) ∧ (N.to_nat n ≤ length l)%nat.

(** The first sub-image of the list whose name is [name]. *)
Fixpoint lookup_layer (name : string) (res : list (string * Bitmap))
    : option Bitmap :=
  match res with
  | [] => None
  | entry :: res' =>
      if String.eqb (fst entry) name then Some (snd entry)
      else lookup_layer name res'
  end.

Definition has_layer (name : string) (res : list (string * Bitmap)) : bool :=
  match lookup_layer name res with Some _ => true | None => false end.

(** What the variable of one role holds once [res] has been scanned, when
    it held [bmp] and its flag was [found] before. *)
Definition slot_after (name : string) (res : list (string * Bitmap))
    (found : bool) (bmp : option Bitmap) : option Bitmap :=
  if found then bmp
  else match lookup_layer name res with Some b => Some b | None => bmp end.

(** The state [s'] of the resolver is the state [s] after a scan of [res]. *)
Definition scanned
    (albedo_ch normals_ch flow_ch previous_denoised_ch noisy_ch : string)
    (res : list (string * Bitmap)) (s s' : resolver) : Prop :=
  albedo_bmp s' = slot_after albedo_ch res (found_albedo s) (albedo_bmp s)
  ∧ normals_bmp s' = slot_after normals_ch res (found_normals s) (normals_bmp s)
  ∧ flow_bmp s' = slot_after flow_ch res (found_flow s) (flow_bmp s)
  ∧ previous_denoised_bmp s'
    = slot_after previous_denoised_ch res (found_previous_denoised s)
        (previous_denoised_bmp s)
  ∧ noisy_bmp s'
    = slot_after noisy_ch res (bool_decide (noisy_bmp s ≠ None)) (noisy_bmp s)
  ∧ found_albedo s' = found_albedo s || has_layer albedo_ch res
  ∧ found_normals s' = found_normals s || has_layer normals_ch res
  ∧ found_flow s' = found_flow s || has_layer flow_ch res
  ∧ found_previous_denoised s'
    = found_previous_denoised s || has_layer previous_denoised_ch res.

Section Specification.
Context {optix : OptixAPI}.

(** The postcondition [Q] holds of the outcome of [m] run from [w]. *)
Definition wp {A} (m : M A) (w : world) (Q : result A → world → Prop) : Prop :=
  Q (fst (m w)) (snd (m w)).

(** An optional input that the configuration of [d] reads is absent. *)
Definition missing_input (d : Denoiser)
    (albedo normals previous_denoised flow : option TensorXf) : Prop :=
  (guideAlbedo (m_options d) = true ∧ albedo = None)
  ∨ (guideNormal (m_options d) = true ∧ normals = None)
  ∨ (m_temporal d = true ∧ (flow = None ∨ previous_denoised = None)).

(** What a successful call of the [Bitmap] form returns and leaves behind. *)
Definition wrapped (d : Denoiser) (noisy_ : Bitmap) (channels : N)
    (r : Bitmap) (w' : world) : Prop :=
  bmp_pixel_format r = (if decide (channels = 3) then PF_RGB else PF_RGBA)
  ∧ bmp_component_format r = Float32
  ∧ bmp_channel_count r = channels
  ∧ bmp_size r = (to_uint (bmp_width noisy_), to_uint (bmp_height noisy_))
  ∧ ∃ src l tr params guide layers,
      src ≠ bmp_data r
      ∧ w_mem w' !! src = Some (Floats Device l)
      ∧ w_mem w' !! bmp_data r = Some (Floats Host l)
      ∧ img_data (layer_output layers) = src
      ∧ w_trace w'
        = tr ++ [EvInvoke (m_denoiser d) jit_cuda_stream params
                   (m_state d) (m_state_size d) guide layers 1 0 0
                   (m_scratch d) (m_scratch_size d);
                 EvMallocMigrate src (bmp_data r) Host;
                 EvSyncThread].

End Specification.

(** ** A reference backend for closed examples

    An engine that accepts every call and returns the input image as the
    denoised one, and a container holding two multi-layer test images. *)
Module Example.

Definition fl (m : positive) : float := S754_finite false m 0.

Definition input_pixels (layers : OptixDenoiserLayer) (mem : gmap N block)
    : list float :=
  match mem !! img_data (layer_input layers) with
  | Some (Floats _ l) => l
  | _ => []
  end.

#[export] Instance passthrough : OptixAPI := {|
  optix_state := nat;
  jit_optix_context := 1;
  jit_cuda_stream := 2;
  optixDenoiserCreate := λ _ _ _ s, (OPTIX_SUCCESS, 7, s);
  optixDenoiserComputeMemoryResources := λ _ width height _,
    (OPTIX_SUCCESS, mkSizes (width * height * 16) (width * height * 8));
  optixDenoiserSetup := λ _ _ _ _ _ _ _ _ s, (OPTIX_SUCCESS, s);
  optixDenoiserComputeIntensity := λ _ _ _ _ _ _ _ s, (OPTIX_SUCCESS, s);
  optixDenoiserInvoke := λ _ _ _ _ _ _ layers _ _ _ _ _ mem s,
    (OPTIX_SUCCESS, S s, input_pixels layers mem)
|}.

(** Host buffers of the test images: one pixel each. *)
Definition sub (channels data : N) : Bitmap :=
  mkBitmap (if decide (channels = 3) then PF_RGB else PF_MultiChannel)
    Float32 (1, 1) channels data.

Definition diffuse_layer : Bitmap := sub 3 11.
Definition albedo_layer : Bitmap := sub 3 12.
Definition normals_layer : Bitmap := sub 3 13.
Definition noisy_layer : Bitmap := sub 3 14.
Definition flow_layer : Bitmap := sub 2 15.
Definition previous_layer : Bitmap := sub 3 16.

(** A render with guide layers, and a frame of an animation. *)
Definition render : Bitmap := mkBitmap PF_MultiChannel Float32 (1, 1) 12 10.
Definition frame : Bitmap := mkBitmap PF_MultiChannel Float32 (1, 1) 8 20.

Definition render_layers : list (string * Bitmap) :=
  [("diffuse"%string, diffuse_layer); ("albedo"%string, albedo_layer);
   ("normals"%string, normals_layer); ("noisy"%string, noisy_layer)].

Definition frame_layers : list (string * Bitmap) :=
  [("noisy"%string, noisy_layer); ("flow"%string, flow_layer);
   ("previous"%string, previous_layer)].

#[export] Instance container : BitmapAPI := {|
  Bitmap_split := λ b,
    if decide (b = render) then render_layers
    else if decide (b = frame) then frame_layers
    else [];
  Bitmap_to_string := λ b,
    if decide (b = render) then "Bitmap[diffuse, albedo, normals, noisy]"%string
    else "Bitmap[]"%string
|}.

Definition host_memory : gmap N block :=
  list_to_map
    [(11, Floats Host [fl 1; fl 2; fl 3]);
     (12, Floats Host [fl 4; fl 5; fl 6]);
     (13, Floats Host [fl 7; fl 8; fl 9]);
     (14, Floats Host [fl 10; fl 11; fl 12]);
     (15, Floats Host [fl 13; fl 14]);
     (16, Floats Host [fl 15; fl 16; fl 17])].

Definition start : world := mkWorld host_memory 0%nat [].

(** The world after constructing a denoiser, with the instance. *)
Definition constructed (input_size : N * N) (albedo normals temporal : bool)
    : result Denoiser * world :=
  Denoiser_new input_size albedo normals temporal start.


(** The instance the reference engine constructs for a one-pixel image, and
    the world it is constructed in. *)
Definition instance (albedo normals temporal : bool) : Denoiser :=
  mkDenoiser 7 (mkOptions albedo normals) 16 17 8 18 19 temporal.

Definition ready (albedo normals temporal : bool) : world :=
  snd (constructed (1, 1) albedo normals temporal).

(** Tensors over the host buffers of the layers. *)
Definition noisy_tensor : TensorXf := mkTensor 14 [1; 1; 3].
Definition albedo_tensor : TensorXf := mkTensor 12 [1; 1; 3].
Definition normals_tensor : TensorXf := mkTensor 13 [1; 1; 3].

(** The guide and input/output layers of the last engine invocation logged. *)
Definition last_invoke (trace : list event)
    : option (OptixDenoiserGuideLayer * OptixDenoiserLayer) :=
  foldl (λ acc e, match e with
                  | EvInvoke _ _ _ _ _ guide layers _ _ _ _ _ =>
                      Some (guide, layers)
                  | _ => acc
                  end) None trace.

(** The floats an image descriptor points to. *)
Definition pixels_behind (w : world) (img : OptixImage2D)
    : option (list float) :=
  match w_mem w !! img_data img with
  | Some (Floats _ l) => Some l
  | _ => None
  end.

(** A frame of an animation denoised with its flow and previous result. *)
Definition temporal_run : result Bitmap * world :=
  denoise_bitmap (instance false false true) frame EmptyString EmptyString
    "flow" "previous" "noisy" (ready false false true).

(** The render denoised with its albedo and normals. *)
Definition guided_run : result Bitmap * world :=
  denoise_bitmap (instance true true false) render "albedo" "normals"
    EmptyString EmptyString "noisy" (ready true true false).

(** An engine that refuses the setup call, with the world it starts in. *)
Definition refusing : OptixAPI := {|
  optix_state := nat;
  jit_optix_context := 1;
  jit_cuda_stream := 2;
  optixDenoiserCreate := λ _ _ _ s, (OPTIX_SUCCESS, 7, s);
  optixDenoiserComputeMemoryResources := λ _ width height _,
    (OPTIX_SUCCESS, mkSizes (width * height * 16) (width * height * 8));
  optixDenoiserSetup := λ _ _ _ _ _ _ _ _ s, (7001%Z, s);
  optixDenoiserComputeIntensity := λ _ _ _ _ _ _ _ s, (OPTIX_SUCCESS, s);
  optixDenoiserInvoke := λ _ _ _ _ _ _ _ _ _ _ _ _ _ s, (OPTIX_SUCCESS, s, [])
|}.

Definition refused_start : @world refusing :=
  @mkWorld refusing host_memory 0%nat [].

(** Teardown on the reference engine: one that destroys every handle, and
    one that refuses. *)
#[export] Instance release : @OptixTeardownAPI passthrough := {|
  optixDenoiserDestroy := λ _ s, (OPTIX_SUCCESS, s)
|}.

Definition stuck : @OptixTeardownAPI passthrough := {|
  optixDenoiserDestroy := λ _ s, (7001%Z, s)
|}.

(** The render denoised in tensor form with its albedo and normals, and the
    noisy layer denoised a second time after it. *)
Definition guided_tensor_run : result TensorXf * world :=
  denoise (instance true true false) noisy_tensor (Some albedo_tensor)
    (Some normals_tensor) None None (ready true true false).

Definition second_tensor_run : result TensorXf * world :=
  denoise (instance true true false) noisy_tensor (Some albedo_tensor)
    (Some normals_tensor) None None (snd guided_tensor_run).

End Example.

(** * Shape groups ([src/render/shapegroup.cpp])

    The constructor of [ShapeGroup] as compiled with Embree on a scalar
    variant: the children are collected in [m_shapes], the bounding box is
    grown by each of them, and there is neither a kd-tree nor a table of
    registry ids.  Bounding boxes are an interface; an object of the scene
    is what the constructor asks of it. *)

Class BoundingBoxAPI : Type := {
  ScalarBoundingBox3f : Type;
  (** [m_bbox] before the first child is added *)
  bbox_initial : ScalarBoundingBox3f;
  (** [a.expand(b)] *)
  bbox_expand : ScalarBoundingBox3f → ScalarBoundingBox3f → ScalarBoundingBox3f
}.

Record Object {boxes : BoundingBoxAPI} : Type := mkObject {
  class_name : string;            (* [class_()->name()] *)
  derives_from_Shape : bool;      (* [class_()->derives_from(MTS_CLASS(Base))] *)
  is_shapegroup : bool;           (* [dynamic_cast<ShapeGroup *>] succeeds *)
  is_emitter : bool;
  is_sensor : bool;
  is_mesh : bool;
  bbox : ScalarBoundingBox3f;
  object_to_string : string       (* what the formatter prints for the object *)
}.
Arguments mkObject {boxes}.

Record ShapeGroup {boxes : BoundingBoxAPI} : Type := mkShapeGroup {
  m_id : string;
  m_shapes : list Object;
  m_bbox : ScalarBoundingBox3f;
  m_has_meshes : bool;
  m_has_others : bool
}.
Arguments mkShapeGroup {boxes}.

Definition double_quote : string := String (ascii_of_nat 34) EmptyString.

Definition unsupported_object_msg {boxes : BoundingBoxAPI} (o : Object)
    : string :=
  "Tried to add an unsupported object of type " ++ double_quote
    ++ object_to_string o ++ double_quote.

Section ShapeGroupCode.
Context {boxes : BoundingBoxAPI}.

(** The body of the loop over [props.objects()]. *)
Definition add_object (g : ShapeGroup) (kv : string * Object)
    : result ShapeGroup :=
  let o := snd kv in
  if String.eqb (class_name o) "Instance" then
    Err (Exception "Nested instancing is not permitted")
  else if derives_from_Shape o then
    if is_shapegroup o then
      Err (Exception "Nested ShapeGroup is not permitted")
    else if is_emitter o then
      Err (Exception "Instancing of emitters is not supported")
    else if is_sensor o then
      Err (Exception "Instancing of sensors is not supported")
    else
      Ok (mkShapeGroup (m_id g) (m_shapes g ++ [o])
            (bbox_expand (m_bbox g) (bbox o))
            (m_has_meshes g || is_mesh o)
            (m_has_others g || negb (is_mesh o)))
  else Err (Exception (unsupported_object_msg o)).

Fixpoint add_objects (g : ShapeGroup) (objects : list (string * Object))
    : result ShapeGroup :=
  match objects with
  | [] => Ok g
  | kv :: rest =>
      match add_object g kv with
      | Ok g' => add_objects g' rest
      | Err e => Err e
      end
  end.

(** [ShapeGroup::ShapeGroup(props)], with [id = props.id()] and
    [objects = props.objects()]. *)
Definition ShapeGroup_new (id : string) (objects : list (string * Object))
    : result ShapeGroup :=
  add_objects (mkShapeGroup id [] bbox_initial false false) objects.

(** An object the constructor takes as a child. *)
Definition permitted (o : Object) : bool :=
  negb (String.eqb (class_name o) "Instance")
  && derives_from_Shape o && negb (is_shapegroup o)
  && negb (is_emitter o) && negb (is_sensor o).

End ShapeGroupCode.

Module ShapeExample.

#[export] Instance intervals : BoundingBoxAPI := {|
  ScalarBoundingBox3f := option (N * N);
  bbox_initial := None;
  bbox_expand := λ a b,
    match a, b with
    | Some (l, h), Some (l', h') => Some (N.min l l', N.max h h')
    | None, _ => b
    | _, None => a
    end
|}.

Definition sphere : Object :=
  mkObject "Sphere" true false false false false (Some (0, 2)) "Sphere[]".
Definition mesh : Object :=
  mkObject "PLYMesh" true false false false true (Some (1, 5)) "PLYMesh[]".
Definition lamp : Object :=
  mkObject "Rectangle" true false true true false (Some (3, 4)) "Rectangle[]".
Definition material : Object :=
  mkObject "BSDF" false false false false false None "Diffuse[]".

End ShapeExample.

(** * Properties *)

(** ** Arrays *)

Section ArrayFacts.
Local Open Scope nat_scope.

Lemma fneg_involutive x : fneg (fneg x) = x.
Proof. destruct x; simpl; by rewrite ?negb_involutive. Qed.

Lemma dr_gather_in_range (l : list float) (index : list nat) :
  Forall (λ i, i < length l) index →
  dr_gather l index = Some ((λ i, default fzero (l !! i)) <$> index).
Proof.
  unfold dr_gather. induction 1 as [|i index Hi _ IH]; [done|].
  apply lookup_lt_is_Some_2 in Hi as [x Hx].
  simpl. rewrite Hx. simpl. rewrite IH. done.
Qed.

Lemma dr_scatter_in_range (g : nat → float) (index : list nat) :
  ∀ l : list float,
  Forall (λ i, i < length l) index →
  dr_scatter l (g <$> index) index
  = Some (imap (λ j x, if bool_decide (j ∈ index) then g j else x) l).
Proof.
  induction index as [|i index IH]; intros l Hall; simpl.
  - f_equal. apply list_eq. intros j. rewrite list_lookup_imap.
    by destruct (l !! j).
  - apply Forall_cons in Hall as [Hi Hall].
    rewrite decide_True by done.
    rewrite IH by (by rewrite length_insert).
    f_equal. apply list_eq. intros j. rewrite !list_lookup_imap.
    destruct (decide (j = i)) as [->|Hne].
    + rewrite list_lookup_insert_eq by done.
      apply lookup_lt_is_Some_2 in Hi as [x Hx]. rewrite Hx. simpl.
      rewrite (bool_decide_eq_true_2 (i ∈ i :: index)) by apply list_elem_of_here.
      by case_bool_decide.
    + rewrite list_lookup_insert_ne by done.
      destruct (l !! j); simpl; [|done].
      f_equal.
      rewrite (bool_decide_ext (j ∈ i :: index) (j ∈ index)); [done|].
      rewrite elem_of_cons. split; [by intros [->|?] | by right].
Qed.

Lemma negate_scatter_gather (l : list float) (index : list nat) :
  Forall (λ i, i < length l) index →
  ∃ v, dr_gather l index = Some v
       ∧ dr_scatter l (fneg <$> v) index = Some (negate_at index l).
Proof.
  intros Hall. eexists. split; [by apply dr_gather_in_range|].
  rewrite <- list_fmap_compose.
  rewrite (dr_scatter_in_range (fneg ∘ (λ i, default fzero (l !! i)))) by done.
  f_equal. unfold negate_at. apply list_eq. intros j.
  rewrite !list_lookup_imap. destruct (l !! j) eqn:E; simpl; [|done].
  case_bool_decide; simpl; [|done]. by rewrite E.
Qed.

Lemma length_negate_at index l : length (negate_at index l) = length l.
Proof. unfold negate_at. by rewrite length_imap. Qed.

Lemma negate_at_lookup index l j :
  negate_at index l !! j
  = (λ x, if bool_decide (j ∈ index) then fneg x else x) <$> l !! j.
Proof. unfold negate_at. by rewrite list_lookup_imap. Qed.

(** Entries of [dr_arange 0 n 3] and [dr_arange 2 n 3] lie inside an array
    of [n] entries. *)
Lemma dr_arange_in_range (start : Z) (n : nat) :
  (start = 0 ∨ start = 2)%Z →
  Forall (λ i, i < n) (dr_arange start (Z.of_nat n) 3).
Proof.
  intros Hs. unfold dr_arange. apply Forall_fmap, Forall_forall.
  intros k Hk%elem_of_seq. simpl in *.
  assert (0 <= Z.of_nat n - start + 3 - 1)%Z by lia.
  assert (Z.of_nat k < (Z.of_nat n - start + 3 - 1) ÷ 3)%Z as Hlt by lia.
  rewrite Z.quot_div_nonneg in Hlt by lia.
  assert (start + Z.of_nat k * 3 < Z.of_nat n)%Z.
  { pose proof (Z.mul_div_le (Z.of_nat n - start + 3 - 1) 3). lia. }
  destruct (decide (Z.of_nat n < 2 ^ 32)%Z).
  - rewrite Z.mod_small by lia. lia.
  - pose proof (Z.mod_pos_bound (start + Z.of_nat k * 3) (2 ^ 32)). lia.
Qed.

End ArrayFacts.

Section Runs.
Context {optix : OptixAPI}.

Lemma bind_ok {A B} (m : M A) (k : A → M B) w a w' :
  m w = (Ok a, w') → (m ≫= k) w = k a w'.
Proof. intros H. unfold mbind, M_bind, bind. by rewrite H. Qed.

Lemma read_floats_run p w k l :
  w_mem w !! p = Some (Floats k l) → read_floats p w = (Ok l, w).
Proof. intros H. unfold read_floats. by rewrite H. Qed.

Lemma t_size_run t w k l :
  w_mem w !! t_array t = Some (Floats k l) →
  t_size t w = (Ok (N.of_nat (length l)), w).
Proof.
  intros H. unfold t_size. by erewrite bind_ok by by eapply read_floats_run.
Qed.

Lemma gather_run t index w k l v :
  w_mem w !! t_array t = Some (Floats k l) →
  dr_gather l index = Some v →
  gather t index w = (Ok v, w).
Proof.
  intros H Hv. unfold gather.
  erewrite bind_ok by by eapply read_floats_run. by rewrite Hv.
Qed.

Lemma scatter_run t v index w k l l' :
  w_mem w !! t_array t = Some (Floats k l) →
  dr_scatter l v index = Some l' →
  scatter t v index w
  = (Ok tt, mkWorld (<[t_array t := Floats k l']> (w_mem w)) (w_optix w)
              (w_trace w)).
Proof.
  intros H Hv. unfold scatter.
  erewrite bind_ok by by eapply read_floats_run.
  rewrite Hv. unfold write_floats. by rewrite H.
Qed.

Lemma correct_normals_run t w k l :
  w_mem w !! t_array t = Some (Floats k l) →
  correct_normals t w
  = (Ok tt, mkWorld (<[t_array t := Floats k (corrected l)]> (w_mem w))
              (w_optix w) (w_trace w)).
Proof.
  intros H. unfold correct_normals.
  erewrite bind_ok by by eapply t_size_run.
  rewrite nat_N_Z.
  destruct (negate_scatter_gather l (dr_arange 0 (Z.of_nat (length l)) 3))
    as (xv & Hg & Hs); [by apply dr_arange_in_range; left|].
  erewrite bind_ok by by eapply gather_run.
  erewrite bind_ok by by eapply scatter_run.
  set (l1 := negate_at _ l) in *.
  set (w1 := mkWorld _ _ _).
  assert (w_mem w1 !! t_array t = Some (Floats k l1)) as H1
    by apply lookup_insert_eq.
  erewrite bind_ok by by eapply t_size_run.
  rewrite nat_N_Z.
  destruct (negate_scatter_gather l1 (dr_arange 2 (Z.of_nat (length l1)) 3))
    as (zv & Hg' & Hs'); [by apply dr_arange_in_range; right|].
  erewrite bind_ok by by eapply gather_run.
  erewrite scatter_run by done.
  subst w1. simpl. rewrite insert_insert_eq.
  unfold corrected. subst l1. by rewrite length_negate_at in *.
Qed.

Lemma length_corrected l : length (corrected l) = length l.
Proof. unfold corrected. by rewrite !length_negate_at. Qed.

Lemma corrected_involutive l : corrected (corrected l) = l.
Proof.
  unfold corrected. rewrite !length_negate_at.
  apply list_eq. intros j. rewrite !negate_at_lookup.
  destruct (l !! j) as [x|]; simpl; [|done]. f_equal.
  repeat case_bool_decide; by rewrite ?fneg_involutive.
Qed.

(** *** Rules of the weakest-precondition calculus *)

Lemma wp_bind {A B} (m : M A) (k : A → M B) w Q :
  wp m w (λ r w1, match r with
                  | Ok a => wp (k a) w1 Q
                  | Err e => Q (Err e) w1
                  end) →
  wp (m ≫= k) w Q.
Proof.
  unfold wp, mbind, M_bind, bind. by destruct (m w) as [[a|e] w1].
Qed.

Lemma wp_mono {A} (m : M A) w (Q Q' : result A → world → Prop) :
  wp m w Q → (∀ r w', Q r w' → Q' r w') → wp m w Q'.
Proof. unfold wp. auto. Qed.

Lemma wp_run {A} (m : M A) w r w' Q : m w = (r, w') → Q r w' → wp m w Q.
Proof. unfold wp. by intros ->. Qed.

Lemma wp_elim {A} (m : M A) w r w' Q : wp m w Q → m w = (r, w') → Q r w'.
Proof. unfold wp. intros H E. by rewrite E in H. Qed.

Lemma fresh_ptr_fresh (mem : gmap N block) : mem !! fresh_ptr mem = None.
Proof.
  apply not_elem_of_dom. intros Hin.
  apply (is_fresh ({[nullptr]} ∪ dom mem)). apply elem_of_union. by right.
Qed.

Lemma fresh_ptr_not_null (mem : gmap N block) : fresh_ptr mem ≠ nullptr.
Proof.
  intros Heq. apply (is_fresh ({[nullptr]} ∪ dom mem)).
  apply elem_of_union. left. apply elem_of_singleton. exact Heq.
Qed.

Lemma alloc_subseteq (m0 mem : gmap N block) b :
  m0 ⊆ mem → m0 ⊆ <[fresh_ptr mem := b]> mem.
Proof.
  intros Hsub. etrans; [exact Hsub|].
  apply insert_subseteq, fresh_ptr_fresh.
Qed.

Lemma engine_store_lookup_ne p q out (mem : gmap N block) :
  p ≠ q → engine_store p out mem !! q = mem !! q.
Proof.
  intros Hne. unfold engine_store.
  destruct (mem !! p) as [[k old|]|]; [|done..].
  by rewrite lookup_insert_ne.
Qed.

Lemma store_subseteq (m0 mem : gmap N block) p out :
  m0 !! p = None → m0 ⊆ mem → m0 ⊆ engine_store p out mem.
Proof.
  intros Hp Hsub. apply map_subseteq_spec. intros q b Hq.
  rewrite engine_store_lookup_ne by congruence.
  by eapply lookup_weaken.
Qed.


Lemma wp_ret {A} (a : A) w (Q : result A → world → Prop) :
  Q (Ok a) w → wp (mret a) w Q.
Proof. done. Qed.

Lemma wp_throw {A} e w (Q : result A → world → Prop) :
  Q (Err e) w → wp (throw e) w Q.
Proof. done. Qed.

Lemma wp_read_floats p w (Q : result (list float) → world → Prop) :
  (∀ k l, w_mem w !! p = Some (Floats k l) → Q (Ok l) w) →
  (¬ is_floats (w_mem w) p → Q (Err MemoryFault) w) →
  wp (read_floats p) w Q.
Proof.
  intros Hok Herr. unfold wp, read_floats, is_floats in *.
  destruct (w_mem w !! p) as [[k l|k n]|] eqn:E; simpl; eauto;
    apply Herr; intros (? & ? & ?); congruence.
Qed.

Lemma wp_t_size t w (Q : result N → world → Prop) :
  (∀ k l, w_mem w !! t_array t = Some (Floats k l) →
          Q (Ok (N.of_nat (length l))) w) →
  (¬ is_floats (w_mem w) (t_array t) → Q (Err MemoryFault) w) →
  wp (t_size t) w Q.
Proof.
  intros Hok Herr. unfold t_size. apply wp_bind, wp_read_floats; [|done].
  intros k l E. by apply wp_ret, (Hok k l).
Qed.

Lemma wp_alloc b w (Q : result N → world → Prop) :
  Q (Ok (fresh_ptr (w_mem w)))
    (mkWorld (<[fresh_ptr (w_mem w) := b]> (w_mem w)) (w_optix w) (w_trace w)) →
  wp (alloc b) w Q.
Proof. done. Qed.

Lemma wp_deref p w (Q : result TensorXf → world → Prop) :
  match p with Some t => Q (Ok t) w | None => Q (Err NullDeref) w end →
  wp (deref p) w Q.
Proof. by destruct p. Qed.

Lemma wp_jit_optix_check rv w (Q : result unit → world → Prop) :
  (rv = OPTIX_SUCCESS → Q (Ok tt) w) →
  (rv ≠ OPTIX_SUCCESS → Q (Err (OptixError rv)) w) →
  wp (jit_optix_check rv) w Q.
Proof.
  intros Hok Herr. unfold wp, jit_optix_check. case_decide; simpl; auto.
Qed.

Lemma wp_TensorXf_copy t w (Q : result TensorXf → world → Prop) :
  (∀ k l, w_mem w !! t_array t = Some (Floats k l) →
     Q (Ok (mkTensor (fresh_ptr (w_mem w)) (t_shape t)))
       (mkWorld (<[fresh_ptr (w_mem w) := Floats Device l]> (w_mem w))
          (w_optix w) (w_trace w))) →
  (¬ is_floats (w_mem w) (t_array t) → Q (Err MemoryFault) w) →
  wp (TensorXf_copy t) w Q.
Proof.
  intros Hok Herr. unfold TensorXf_copy. apply wp_bind, wp_read_floats; [|done].
  intros k l E. apply wp_bind, wp_alloc, wp_ret. by eapply Hok.
Qed.

Lemma wp_correct_normals t w k l (Q : result unit → world → Prop) :
  w_mem w !! t_array t = Some (Floats k l) →
  Q (Ok tt) (mkWorld (<[t_array t := Floats k (corrected l)]> (w_mem w))
               (w_optix w) (w_trace w)) →
  wp (correct_normals t) w Q.
Proof. intros E HQ. eapply wp_run; [by eapply correct_normals_run|done]. Qed.

Lemma wp_ComputeIntensity den stream input hdr scratch size w
    (Q : result OptixResult → world → Prop) :
  (∀ rv s, Q (Ok rv)
     (mkWorld (w_mem w) s
        (w_trace w ++ [EvComputeIntensity den stream input hdr scratch size]))) →
  wp (call_optixDenoiserComputeIntensity den stream input hdr scratch size) w Q.
Proof.
  intros HQ. unfold wp, call_optixDenoiserComputeIntensity.
  destruct (optixDenoiserComputeIntensity _ _ _ _ _ _ _ _) as [rv s].
  apply HQ.
Qed.

Lemma wp_Invoke den stream params st sts guide layers nl ox oy scratch size w
    (Q : result OptixResult → world → Prop) :
  (∀ rv s out, Q (Ok rv)
     (mkWorld (engine_store (img_data (layer_output layers)) out (w_mem w)) s
        (w_trace w ++ [EvInvoke den stream params st sts guide layers nl ox oy
                         scratch size]))) →
  wp (call_optixDenoiserInvoke den stream params st sts guide layers nl ox oy
        scratch size) w Q.
Proof.
  intros HQ. unfold wp, call_optixDenoiserInvoke.
  destruct (optixDenoiserInvoke _ _ _ _ _ _ _ _ _ _ _ _ _ _) as [[rv s] out].
  apply HQ.
Qed.

Lemma is_floats_weaken (m0 mem : gmap N block) p :
  m0 ⊆ mem → is_floats m0 p → is_floats mem p.
Proof.
  intros Hsub (k & l & E). exists k, l. by eapply lookup_weaken.
Qed.

Lemma engine_store_lookup_eq p out (mem : gmap N block) k old :
  mem !! p = Some (Floats k old) →
  engine_store p out mem !! p = Some (Floats k (overwrite old out)).
Proof.
  intros E. unfold engine_store. rewrite E. apply lookup_insert_eq.
Qed.

(** Rules for the [Bitmap] form. *)
Lemma wp_TensorXf_from_data data sh w (Q : result TensorXf → world → Prop) :
  (∀ k l, w_mem w !! data = Some (Floats k l) →
     (N.to_nat (shape_size sh) ≤ length l)%nat →
     Q (Ok (mkTensor (fresh_ptr (w_mem w)) sh))
       (mkWorld (<[fresh_ptr (w_mem w)
                   := Floats Device (take (N.to_nat (shape_size sh)) l)]>
                   (w_mem w))
          (w_optix w) (w_trace w))) →
  (¬ holds_floats (w_mem w) data (shape_size sh) → Q (Err MemoryFault) w) →
  wp (TensorXf_from_data data sh) w Q.
Proof.
  intros Hok Herr. unfold TensorXf_from_data.
  apply wp_bind, wp_read_floats.
  - intros k l E. case_decide as Hlen.
    + apply wp_bind, wp_alloc, wp_ret. by eapply Hok.
    + apply Herr. intros (k' & l' & E' & Hlen'). congruence.
  - intros Hbad. apply Herr. intros (k' & l' & E' & _). apply Hbad.
    by exists k', l'.
Qed.

Lemma wp_tensor_of_bmp bmp sh w (Q : result (option TensorXf) → world → Prop) :
  (∀ t w1, w_mem w ⊆ w_mem w1 → w_trace w1 = w_trace w → t_shape t = sh →
           is_Some bmp → Q (Ok (Some t)) w1) →
  (bmp = None → Q (Ok None) w) →
  (is_Some bmp → Q (Err MemoryFault) w) →
  wp (tensor_of_bmp bmp sh) w Q.
Proof.
  intros Hok Hnone Herr. destruct bmp as [b|]; simpl; [|by apply Hnone].
  apply wp_bind, wp_TensorXf_from_data; [|intros _; by apply Herr].
  intros k l E Hlen. apply wp_ret, Hok; simpl; try done.
  by apply alloc_subseteq.
Qed.

Lemma wp_jit_malloc_migrate p type w (Q : result N → world → Prop) :
  (∀ b, w_mem w !! p = Some b →
     Q (Ok (fresh_ptr (w_mem w)))
       (mkWorld (<[fresh_ptr (w_mem w) := retype type b]> (w_mem w))
          (w_optix w)
          (w_trace w ++ [EvMallocMigrate p (fresh_ptr (w_mem w)) type]))) →
  (w_mem w !! p = None → Q (Err MemoryFault) w) →
  wp (jit_malloc_migrate p type) w Q.
Proof.
  intros Hok Herr. unfold wp, jit_malloc_migrate.
  destruct (w_mem w !! p) as [b|] eqn:E; [|by apply Herr]. by apply Hok.
Qed.

Lemma wp_wrap_denoised den w (Q : result Bitmap → world → Prop) :
  (∀ b, w_mem w !! t_array den = Some b →
     let dst := fresh_ptr (w_mem w) in
     Q (Ok (mkBitmap (if decide (shape den 2 = 3) then PF_RGB else PF_RGBA)
              Float32 (to_uint (shape den 1), to_uint (shape den 0))
              (shape den 2) dst))
       (mkWorld (<[dst := retype Host b]> (w_mem w)) (w_optix w)
          (w_trace w ++ [EvMallocMigrate (t_array den) dst Host; EvSyncThread]))) →
  (w_mem w !! t_array den = None → Q (Err MemoryFault) w) →
  wp (wrap_denoised den) w Q.
Proof.
  intros Hok Herr. unfold wrap_denoised.
  apply wp_bind, wp_jit_malloc_migrate; [|done].
  intros b E. apply wp_bind. unfold jit_sync_thread, log, wp. simpl.
  rewrite <- app_assoc. by apply Hok.
Qed.

End Runs.

Section Characterisation.
Local Open Scope nat_scope.
Local Arguments Nat.modulo : simpl never.

(** Below [2 ^ 32] entries the index arithmetic does not wrap, and
    [dr_arange start n 3] lists the positions congruent to [start]. *)
Lemma elem_of_dr_arange (start n j : nat) :
  start < 3 → (Z.of_nat n < 2 ^ 32)%Z →
  j ∈ dr_arange (Z.of_nat start) (Z.of_nat n) 3 ↔ j < n ∧ j mod 3 = start.
Proof.
  intros Hs Hn. unfold dr_arange. change (0 <? 3)%Z with true. cbv beta iota zeta.
  rewrite list_elem_of_fmap. setoid_rewrite elem_of_seq.
  assert (0 <= Z.of_nat n - Z.of_nat start + 3 - 1)%Z as Hnonneg by lia.
  rewrite Z.quot_div_nonneg by lia.
  split.
  - intros (k & -> & _ & Hk).
    assert (Z.of_nat start + Z.of_nat k * 3 < Z.of_nat n)%Z as Hlt.
    { pose proof (Z.mul_div_le (Z.of_nat n - Z.of_nat start + 3 - 1) 3). lia. }
    rewrite Z.mod_small by lia.
    replace (Z.to_nat (Z.of_nat start + Z.of_nat k * 3)) with (start + k * 3)
      by lia.
    split; [lia|].
    rewrite (Nat.Div0.mod_add start k 3). by apply Nat.mod_small.
  - intros [Hj Hmod]. exists (j / 3). split.
    + pose proof (Nat.div_mod_eq j 3) as Hdm.
      rewrite Z.mod_small by lia. lia.
    + split; [lia|].
      pose proof (Nat.div_mod_eq j 3) as Hdm.
      assert (Z.of_nat (j / 3) + 1
              ≤ (Z.of_nat n - Z.of_nat start + 3 - 1) / 3)%Z; [|lia].
      apply Z.div_le_lower_bound; lia.
Qed.

(** On an array of fewer than [2 ^ 32] entries the coordinate change negates
    the entries at the positions [3k] and [3k + 2] and keeps those at
    [3k + 1]. *)
Lemma corrected_lookup (l : list float) (j : nat) :
  (Z.of_nat (length l) < 2 ^ 32)%Z →
  corrected l !! j
  = (λ x, if decide (j mod 3 = 1) then x else fneg x) <$> l !! j.
Proof.
  intros Hlen. unfold corrected. rewrite !negate_at_lookup.
  destruct (l !! j) as [x|] eqn:E; simpl; [|done]. f_equal.
  apply lookup_lt_Some in E.
  pose proof (elem_of_dr_arange 0 (length l) j ltac:(lia) Hlen) as H0.
  pose proof (elem_of_dr_arange 2 (length l) j ltac:(lia) Hlen) as H2.
  change (Z.of_nat 0) with 0%Z in H0. change (Z.of_nat 2) with 2%Z in H2.
  pose proof (Nat.mod_upper_bound j 3 ltac:(lia)) as Hb.
  rewrite (bool_decide_ext _ _ H0), (bool_decide_ext _ _ H2).
  repeat case_bool_decide; case_decide; try done; exfalso; lia.
Qed.

End Characterisation.

(** Symbolic execution of one step of a computation. *)
Ltac wp_step :=
  lazymatch goal with
  | |- wp (mbind _ _) _ _ => apply wp_bind
  | |- wp (mret _) _ _ => apply wp_ret
  | |- wp (ret _) _ _ => apply wp_ret
  | |- wp (throw _) _ _ => apply wp_throw
  | |- wp (alloc _) _ _ => apply wp_alloc
  | |- wp (dr_empty _) _ _ => apply wp_alloc
  | |- wp (deref ?p) _ _ => apply wp_deref; destruct p
  | |- wp (jit_optix_check _) _ _ =>
      apply wp_jit_optix_check; intros ?
  | |- wp (call_optixDenoiserComputeIntensity _ _ _ _ _ _) _ _ =>
      apply wp_ComputeIntensity; intros ? ?
  | |- wp (call_optixDenoiserInvoke _ _ _ _ _ _ _ _ _ _ _ _) _ _ =>
      apply wp_Invoke; intros ? ? ?
  | |- wp (t_size _) _ _ => apply wp_t_size
  | |- wp (TensorXf_copy _) _ _ => apply wp_TensorXf_copy
  | |- wp (TensorXf_from_data _ _) _ _ => apply wp_TensorXf_from_data
  | |- wp (tensor_of_bmp _ _) _ _ => apply wp_tensor_of_bmp
  | |- wp (wrap_denoised _) _ _ => apply wp_wrap_denoised
  | |- wp (if ?b then _ else _) _ _ => destruct b eqn:?
  end.

(** ** The tensor form of [denoise] *)

Section TensorForm.
Context {optix : OptixAPI}.

Lemma denoise_frame d noisy albedo normals prev flow w :
  wp (denoise d noisy albedo normals prev flow) w
    (λ _ w', w_mem w ⊆ w_mem w').
Proof.
  unfold denoise. cbv zeta.
  wp_step. wp_step; [intros kn ln En|done].
  wp_step. wp_step. wp_step. wp_step. wp_step. wp_step; [|by apply alloc_subseteq].
  simpl.
  set (mem1 := <[fresh_ptr (w_mem w) := _]> (w_mem w)).
  assert (w_mem w ⊆ mem1) as Hsub1 by by apply alloc_subseteq.
  assert (w_mem w !! fresh_ptr (w_mem w) = None) as Hout by apply fresh_ptr_fresh.
  wp_step.
  eapply wp_mono with (Q := λ _ w1, w_mem w1 = mem1).
  { repeat wp_step; done. }
  intros [ga|e] w1 Hw1; [|by rewrite Hw1].
  wp_step.
  eapply wp_mono with (Q := λ _ w2, w_mem w ⊆ w_mem w2).
  { wp_step; [|wp_step; by rewrite Hw1].
    wp_step. wp_step; [|by rewrite Hw1].
    wp_step. wp_step; [intros k l E|by rewrite Hw1].
    wp_step. eapply wp_correct_normals; [apply lookup_insert_eq|].
    wp_step. simpl. rewrite insert_insert_eq, Hw1.
    etrans; [exact Hsub1|]. apply insert_subseteq, fresh_ptr_fresh. }
  intros [gn|e] w2 Hw2; [|done].
  wp_step.
  eapply wp_mono with (Q := λ _ w3, w3 = w2).
  { repeat wp_step; done. }
  intros [tl|e] w3 ->; [|done].
  wp_step. wp_step. simpl.
  assert (w_mem w ⊆ engine_store (fresh_ptr (w_mem w)) out (w_mem w2))
    by by apply store_subseteq.
  wp_step. wp_step; [|done]. by wp_step.
Qed.


Lemma denoise_outcome d noisy albedo normals prev flow w :
  wp (denoise d noisy albedo normals prev flow) w (λ r w',
    match r with
    | Ok t =>
        t = mkTensor (fresh_ptr (w_mem w))
              [shape noisy 0; shape noisy 1; shape noisy 2]
        ∧ (∃ l, w_mem w' !! fresh_ptr (w_mem w) = Some (Floats Device l))
        ∧ ¬ missing_input d albedo normals prev flow
        ∧ is_floats (w_mem w) (t_array noisy)
        ∧ ∃ params guide layers,
            w_trace w'
            = w_trace w
              ++ [EvComputeIntensity (m_denoiser d) jit_cuda_stream
                    (optixImage2DfromTensor noisy
                       (if decide (shape noisy 2 = 3)
                        then OPTIX_PIXEL_FORMAT_FLOAT3
                        else OPTIX_PIXEL_FORMAT_FLOAT4))
                    (m_hdr_intensity d) (m_scratch d) (m_scratch_size d);
                  EvInvoke (m_denoiser d) jit_cuda_stream params (m_state d)
                    (m_state_size d) guide layers 1 0 0 (m_scratch d)
                    (m_scratch_size d)]
            ∧ img_data (layer_output layers) = fresh_ptr (w_mem w)
            ∧ img_data (layer_input layers) = t_array noisy
    | Err (Exception _) => False
    | Err (OptixError _) => is_floats (w_mem w) (t_array noisy)
    | Err NullDeref =>
        missing_input d albedo normals prev flow
        ∧ is_floats (w_mem w) (t_array noisy)
    | Err MemoryFault =>
        ¬ is_floats (w_mem w) (t_array noisy)
        ∨ (guideNormal (m_options d) = true
           ∧ ∃ nrm, normals = Some nrm ∧ ¬ is_floats (w_mem w) (t_array nrm))
    end).
Proof.
  unfold denoise. cbv zeta.
  wp_step. wp_step; [intros k l E|by left].
  assert (is_floats (w_mem w) (t_array noisy)) as Hnoisy by by eexists _, _.
  wp_step. wp_step. wp_step. wp_step. wp_step. wp_step; [|done].
  simpl.
  set (out := fresh_ptr (w_mem w)).
  set (mem1 := <[out := _]> (w_mem w)).
  set (tr1 := w_trace w ++ _).
  assert (w_mem w ⊆ mem1) as Hsub1 by by apply alloc_subseteq.
  assert (mem1 !! out = Some (Floats Device
            (replicate (N.to_nat (N.of_nat (length l))) fzero))) as Hout
    by apply lookup_insert_eq.
  wp_step.
  eapply wp_mono with
    (Q := λ r w1, match r with
                  | Ok _ => (w_mem w1 = mem1 ∧ w_trace w1 = tr1)
                            ∧ ¬ (guideAlbedo (m_options d) = true ∧ albedo = None)
                  | Err e => e = NullDeref
                             ∧ guideAlbedo (m_options d) = true ∧ albedo = None
                  end).
  { repeat wp_step; try done. all: split; [done|]; by intros [? ?]. }
  intros [ga|e] w1; [intros [[Hw1 Htr1] Ha]|intros (-> & ? & ?)];
    [|split; [by left|done]].
  wp_step.
  eapply wp_mono with
    (Q := λ r w2, match r with
                  | Ok _ => (w_mem w2 !! out = mem1 !! out ∧ w_trace w2 = tr1)
                            ∧ ¬ (guideNormal (m_options d) = true ∧ normals = None)
                  | Err NullDeref =>
                      guideNormal (m_options d) = true ∧ normals = None
                  | Err MemoryFault =>
                      guideNormal (m_options d) = true
                      ∧ ∃ nrm, normals = Some nrm
                               ∧ ¬ is_floats (w_mem w) (t_array nrm)
                  | Err _ => False
                  end).
  { wp_step; [|wp_step; split; [by rewrite Hw1|by intros [? ?]]].
    wp_step. wp_step; [|done].
    wp_step. wp_step; [intros kn ln En|intros Hbad].
    - wp_step. eapply wp_correct_normals; [apply lookup_insert_eq|].
      wp_step. simpl. split; [split; [|done]|by intros [? ?]].
      rewrite insert_insert_eq, Hw1.
      apply lookup_insert_ne. intros Heq.
      pose proof (fresh_ptr_fresh mem1) as Hf. rewrite Heq in Hf. congruence.
    - split; [done|]. eexists. split; [done|].
      intros Hfl. apply Hbad. rewrite Hw1. by eapply is_floats_weaken. }
  intros [gn|e] w2; [intros [[Hw2 Htr2] Hn]| ].
  2:{ destruct e; try done; [intros ?|intros ?].
      - split; [|done]. right. by left.
      - by right. }
  wp_step.
  eapply wp_mono with
    (Q := λ r w3, match r with
                  | Ok _ => w3 = w2
                            ∧ ¬ (m_temporal d = true ∧ (flow = None ∨ prev = None))
                  | Err e => e = NullDeref
                             ∧ m_temporal d = true ∧ (flow = None ∨ prev = None)
                  end).
  { repeat wp_step; try done.
    all: try (split; [done|]; intros [? [?|?]]; congruence).
    all: split; [done|]; split; [done|]; auto. }
  intros [tl|e] w3; [intros [-> Ht]|intros (-> & ? & ?)];
    [|split; [right; by right|done]].
  wp_step. wp_step. simpl.
  wp_step. wp_step; [|done]. wp_step.
  split; [done|]. split; [|split; [|split; [done|]]].
  - rewrite Hout in Hw2. eexists. by eapply engine_store_lookup_eq.
  - unfold missing_input. tauto.
  - eexists _, _, _. split; [|split].
    + simpl. rewrite Htr2. unfold tr1. rewrite <- app_assoc. simpl. reflexivity.
    + done.
    + done.
Qed.

Lemma denoise_normal_guide d noisy albedo nrm prev flow w k l :
  guideNormal (m_options d) = true →
  w_mem w !! t_array nrm = Some (Floats k l) →
  wp (denoise d noisy albedo (Some nrm) prev flow) w (λ r w',
    ∀ t, r = Ok t →
    ∃ cp params guide layers,
      w_mem w !! cp = None
      ∧ w_mem w' !! cp = Some (Floats Device (corrected l))
      ∧ last (w_trace w')
        = Some (EvInvoke (m_denoiser d) jit_cuda_stream params (m_state d)
                  (m_state_size d) guide layers 1 0 0 (m_scratch d)
                  (m_scratch_size d))
      ∧ guide_normal guide
        = optixImage2DfromTensor (mkTensor cp (t_shape nrm))
            OPTIX_PIXEL_FORMAT_FLOAT3).
Proof.
  intros Hflag Hnrm. unfold denoise. cbv zeta. rewrite Hflag.
  wp_step. wp_step; [intros kn ln En|done].
  wp_step. wp_step. wp_step. wp_step. wp_step. wp_step; [|done].
  simpl.
  set (out := fresh_ptr (w_mem w)).
  set (mem1 := <[out := _]> (w_mem w)).
  assert (mem1 !! out ≠ None) as Hout by (unfold mem1; by rewrite lookup_insert_eq).
  assert (mem1 !! t_array nrm = Some (Floats k l)) as Hnrm1.
  { eapply lookup_weaken; [exact Hnrm|]. by apply alloc_subseteq. }
  wp_step.
  eapply wp_mono with (Q := λ _ w1, w_mem w1 = mem1).
  { repeat wp_step; done. }
  intros [ga|e] w1 Hw1; [|done].
  wp_step. wp_step. wp_step. wp_step.
  wp_step; [intros k' l' E'|done].
  rewrite Hw1, Hnrm1 in E'. injection E' as <- <-.
  wp_step. eapply wp_correct_normals; [apply lookup_insert_eq|].
  wp_step. simpl. rewrite insert_insert_eq, Hw1.
  set (cp := fresh_ptr mem1).
  assert (mem1 !! cp = None) as Hcp by apply fresh_ptr_fresh.
  wp_step.
  eapply wp_mono with (Q := λ _ w3, w_mem w3 = <[cp := Floats Device (corrected l)]> mem1).
  { repeat wp_step; done. }
  intros [tl|e] w3 Hw3; [|done].
  wp_step. wp_step. simpl.
  wp_step. wp_step; [|done]. wp_step.
  intros t _. eexists cp, _, _, _. split; [|split; [|split]].
  - eapply lookup_weaken_None; [exact Hcp|]. by apply alloc_subseteq.
  - simpl. rewrite engine_store_lookup_ne by congruence.
    rewrite Hw3. apply lookup_insert_eq.
  - simpl. by rewrite last_snoc.
  - done.
Qed.

End TensorForm.

(** ** The channel resolver *)

Section ResolverFacts.
Variables albedo_ch normals_ch flow_ch previous_denoised_ch noisy_ch : string.

#[local] Abbreviation step := (resolver_step albedo_ch normals_ch flow_ch
                    previous_denoised_ch noisy_ch).
#[local] Abbreviation loop := (resolver_loop albedo_ch normals_ch flow_ch
                    previous_denoised_ch noisy_ch).

Lemma match_albedo_eq s entry :
  match_albedo albedo_ch s entry
  = mkResolver (noisy_bmp s)
      (slot_after albedo_ch [entry] (found_albedo s) (albedo_bmp s))
      (normals_bmp s) (flow_bmp s) (previous_denoised_bmp s)
      (found_albedo s || has_layer albedo_ch [entry])
      (found_normals s) (found_flow s) (found_previous_denoised s).
Proof.
  destruct s as [nb ab nob fb pb fa fn ff fp].
  unfold match_albedo, slot_after, has_layer. simpl.
  destruct fa, (String.eqb entry.1 albedo_ch); simpl; done.
Qed.

Lemma match_normals_eq s entry :
  match_normals normals_ch s entry
  = mkResolver (noisy_bmp s) (albedo_bmp s)
      (slot_after normals_ch [entry] (found_normals s) (normals_bmp s))
      (flow_bmp s) (previous_denoised_bmp s) (found_albedo s)
      (found_normals s || has_layer normals_ch [entry])
      (found_flow s) (found_previous_denoised s).
Proof.
  destruct s as [nb ab nob fb pb fa fn ff fp].
  unfold match_normals, slot_after, has_layer. simpl.
  destruct fn, (String.eqb entry.1 normals_ch); simpl; done.
Qed.

Lemma match_flow_eq s entry :
  match_flow flow_ch s entry
  = mkResolver (noisy_bmp s) (albedo_bmp s) (normals_bmp s)
      (slot_after flow_ch [entry] (found_flow s) (flow_bmp s))
      (previous_denoised_bmp s) (found_albedo s) (found_normals s)
      (found_flow s || has_layer flow_ch [entry])
      (found_previous_denoised s).
Proof.
  destruct s as [nb ab nob fb pb fa fn ff fp].
  unfold match_flow, slot_after, has_layer. simpl.
  destruct ff, (String.eqb entry.1 flow_ch); simpl; done.
Qed.

Lemma match_previous_denoised_eq s entry :
  match_previous_denoised previous_denoised_ch s entry
  = mkResolver (noisy_bmp s) (albedo_bmp s) (normals_bmp s) (flow_bmp s)
      (slot_after previous_denoised_ch [entry] (found_previous_denoised s)
         (previous_denoised_bmp s))
      (found_albedo s) (found_normals s) (found_flow s)
      (found_previous_denoised s || has_layer previous_denoised_ch [entry]).
Proof.
  destruct s as [nb ab nob fb pb fa fn ff fp].
  unfold match_previous_denoised, slot_after, has_layer. simpl.
  destruct fp, (String.eqb entry.1 previous_denoised_ch); simpl; done.
Qed.

Lemma match_noisy_eq s entry :
  match_noisy noisy_ch s entry
  = mkResolver
      (slot_after noisy_ch [entry] (bool_decide (noisy_bmp s ≠ None))
         (noisy_bmp s))
      (albedo_bmp s) (normals_bmp s) (flow_bmp s) (previous_denoised_bmp s)
      (found_albedo s) (found_normals s) (found_flow s)
      (found_previous_denoised s).
Proof.
  destruct s as [nb ab nob fb pb fa fn ff fp].
  unfold match_noisy, slot_after, has_layer. simpl.
  destruct nb, (String.eqb entry.1 noisy_ch); simpl; done.
Qed.

Lemma resolver_step_scanned s entry :
  scanned albedo_ch normals_ch flow_ch previous_denoised_ch noisy_ch [entry]
    s (step s entry).
Proof.
  unfold resolver_step.
  rewrite match_noisy_eq, match_previous_denoised_eq, match_flow_eq,
    match_normals_eq, match_albedo_eq.
  unfold scanned. simpl. done.
Qed.

Lemma slot_after_cons name entry res found bmp :
  slot_after name res (found || has_layer name [entry])
    (slot_after name [entry] found bmp)
  = slot_after name (entry :: res) found bmp.
Proof.
  unfold slot_after, has_layer. simpl.
  destruct found, (String.eqb entry.1 name); simpl; done.
Qed.

Lemma has_layer_cons name entry res :
  has_layer name (entry :: res) = has_layer name [entry] || has_layer name res.
Proof.
  unfold has_layer. simpl. by destruct (String.eqb entry.1 name).
Qed.

Lemma resolver_loop_scanned res :
  ∀ s, scanned albedo_ch normals_ch flow_ch previous_denoised_ch noisy_ch res
         s (loop res s).
Proof.
  induction res as [|entry res IH]; intros s.
  - unfold scanned, slot_after, has_layer. simpl.
    rewrite !orb_false_r. split_and!; try done.
    + by destruct (found_albedo s).
    + by destruct (found_normals s).
    + by destruct (found_flow s).
    + by destruct (found_previous_denoised s).
    + by destruct (noisy_bmp s).
  - simpl. destruct (resolver_done s) eqn:Hdone.
    + unfold resolver_done in Hdone.
      apply andb_prop in Hdone as [Hdone Hnb].
      apply andb_prop in Hdone as [Hdone Hp].
      apply andb_prop in Hdone as [Hdone Hf].
      apply andb_prop in Hdone as [Ha Hn].
      unfold scanned, slot_after. by rewrite Ha, Hn, Hf, Hp, Hnb.
    + specialize (IH (step s entry)).
      pose proof (resolver_step_scanned s entry) as Hs.
      unfold scanned in *.
      destruct Hs as (Ha & Hn & Hf & Hp & Hnb & Hfa & Hfn & Hff & Hfp).
      destruct IH as (-> & -> & -> & -> & -> & -> & -> & -> & ->).
      rewrite Ha, Hn, Hf, Hp, Hfa, Hfn, Hff, Hfp.
      rewrite !slot_after_cons, <- !orb_assoc, <- !has_layer_cons.
      split_and!; try done.
      rewrite Hnb. unfold slot_after. simpl.
      by destruct (noisy_bmp s), (String.eqb entry.1 noisy_ch).
Qed.

End ResolverFacts.

Section LayerFacts.

Lemma lookup_layer_None name res :
  lookup_layer name res = None ↔ name ∉ res.*1.
Proof.
  induction res as [|[n b] res IH]; simpl.
  - split; [intros _; apply not_elem_of_nil|done].
  - rewrite not_elem_of_cons. destruct (String.eqb_spec n name) as [->|Hne].
    + split; [done|]. by intros [? _].
    + rewrite IH. split; [by split|by intros [_ ?]].
Qed.

(** [lookup_layer] yields the first entry with the requested name. *)
Lemma lookup_layer_Some name res b :
  lookup_layer name res = Some b ↔
  ∃ pre post, res = pre ++ (name, b) :: post ∧ name ∉ pre.*1.
Proof.
  induction res as [|[n b'] res IH]; simpl.
  - split; [done|]. intros (pre & post & E & _). by destruct pre.
  - destruct (String.eqb_spec n name) as [->|Hne].
    + split.
      * intros [= ->]. exists [], res. split; [done|apply not_elem_of_nil].
      * intros (pre & post & E & Hpre). destruct pre as [|[n' b''] pre].
        -- by injection E as -> _.
        -- injection E as -> -> _. exfalso. apply Hpre. simpl. apply list_elem_of_here.
    + rewrite IH. split.
      * intros (pre & post & -> & Hpre). exists ((n, b') :: pre), post.
        split; [done|]. simpl. rewrite not_elem_of_cons. by split.
      * intros (pre & post & E & Hpre). destruct pre as [|[n' b''] pre].
        -- by injection E as -> _.
        -- injection E as -> -> ->. exists pre, post. split; [done|].
           simpl in Hpre. rewrite not_elem_of_cons in Hpre. by destruct Hpre.
Qed.

Lemma has_layer_false name res : has_layer name res = false ↔ name ∉ res.*1.
Proof.
  rewrite <- lookup_layer_None. unfold has_layer.
  by destruct (lookup_layer name res).
Qed.

Lemma resolve_spec albedo_ch normals_ch flow_ch previous_denoised_ch noisy_ch res :
  let s := resolve albedo_ch normals_ch flow_ch previous_denoised_ch noisy_ch res in
  albedo_bmp s
  = (if String.eqb albedo_ch EmptyString then None
     else lookup_layer albedo_ch res)
  ∧ normals_bmp s
    = (if String.eqb normals_ch EmptyString then None
       else lookup_layer normals_ch res)
  ∧ flow_bmp s
    = (if String.eqb flow_ch EmptyString then None
       else lookup_layer flow_ch res)
  ∧ previous_denoised_bmp s
    = (if String.eqb previous_denoised_ch EmptyString then None
       else lookup_layer previous_denoised_ch res)
  ∧ noisy_bmp s = lookup_layer noisy_ch res
  ∧ found_albedo s
    = String.eqb albedo_ch EmptyString || has_layer albedo_ch res
  ∧ found_normals s
    = String.eqb normals_ch EmptyString || has_layer normals_ch res
  ∧ found_flow s
    = String.eqb flow_ch EmptyString || has_layer flow_ch res
  ∧ found_previous_denoised s
    = String.eqb previous_denoised_ch EmptyString
      || has_layer previous_denoised_ch res.
Proof.
  intros s.
  destruct (resolver_loop_scanned albedo_ch normals_ch flow_ch
              previous_denoised_ch noisy_ch res
              (resolver_init albedo_ch normals_ch flow_ch previous_denoised_ch))
    as (Ha & Hn & Hf & Hp & Hnb & Hfa & Hfn & Hff & Hfp).
  fold (resolve albedo_ch normals_ch flow_ch previous_denoised_ch noisy_ch res)
    in *.
  fold s in Ha, Hn, Hf, Hp, Hnb, Hfa, Hfn, Hff, Hfp.
  unfold slot_after in *. simpl in *.
  clearbody s. split_and!; try done.
  - rewrite Ha. destruct (String.eqb albedo_ch _); [done|].
    by destruct (lookup_layer albedo_ch _).
  - rewrite Hn. destruct (String.eqb normals_ch _); [done|].
    by destruct (lookup_layer normals_ch _).
  - rewrite Hf. destruct (String.eqb flow_ch _); [done|].
    by destruct (lookup_layer flow_ch _).
  - rewrite Hp. destruct (String.eqb previous_denoised_ch _); [done|].
    by destruct (lookup_layer previous_denoised_ch _).
  - rewrite Hnb. by destruct (lookup_layer noisy_ch _).
Qed.

End LayerFacts.

(** ** The [Bitmap] form of [denoise] *)

Section BitmapForm.
Context {optix : OptixAPI} {bitmaps : BitmapAPI}.

Lemma check_channels_run noisy_ albedo_ch normals_ch flow_ch
    previous_denoised_ch noisy_ch s w :
  check_channels noisy_ albedo_ch normals_ch flow_ch previous_denoised_ch
    noisy_ch s w
  = if bool_decide (noisy_bmp s = None)
    then (Err (Exception (missing_channel_msg noisy_ noisy_ch)), w)
    else if negb (found_albedo s)
    then (Err (Exception (missing_channel_msg noisy_ albedo_ch)), w)
    else if negb (found_normals s)
    then (Err (Exception (missing_channel_msg noisy_ normals_ch)), w)
    else if negb (found_flow s)
    then (Err (Exception (missing_channel_msg noisy_ flow_ch)), w)
    else if negb (found_previous_denoised s)
    then (Err (Exception (missing_channel_msg noisy_ previous_denoised_ch)), w)
    else (Ok tt, w).
Proof.
  unfold check_channels.
  destruct (bool_decide (noisy_bmp s = None)); [done|].
  destruct (found_albedo s); [|done].
  destruct (found_normals s); [|done].
  destruct (found_flow s); [|done].
  by destruct (found_previous_denoised s).
Qed.


Lemma wp_denoise_wrap d nt a n p f w :
  wp (denoised ← denoise d nt a n p f; wrap_denoised denoised) w (λ res w',
    match res with
    | Ok r =>
        r = mkBitmap (if decide (shape nt 2 = 3) then PF_RGB else PF_RGBA)
              Float32 (to_uint (shape nt 1), to_uint (shape nt 0))
              (shape nt 2) (bmp_data r)
        ∧ ¬ missing_input d a n p f
        ∧ ∃ src l tr params guide layers,
            src ≠ bmp_data r
            ∧ w_mem w' !! src = Some (Floats Device l)
            ∧ w_mem w' !! bmp_data r = Some (Floats Host l)
            ∧ img_data (layer_output layers) = src
            ∧ w_trace w'
              = tr ++ [EvInvoke (m_denoiser d) jit_cuda_stream params
                         (m_state d) (m_state_size d) guide layers 1 0 0
                         (m_scratch d) (m_scratch_size d);
                       EvMallocMigrate src (bmp_data r) Host;
                       EvSyncThread]
    | Err (Exception _) => False
    | Err (OptixError _) => is_floats (w_mem w) (t_array nt)
    | Err NullDeref =>
        missing_input d a n p f ∧ is_floats (w_mem w) (t_array nt)
    | Err MemoryFault =>
        ¬ is_floats (w_mem w) (t_array nt)
        ∨ (guideNormal (m_options d) = true
           ∧ ∃ nrm, n = Some nrm ∧ ¬ is_floats (w_mem w) (t_array nrm))
    end).
Proof.
  wp_step. eapply wp_mono; [apply denoise_outcome|].
  intros [t|e] w1; [|done].
  intros (-> & (l & Hl) & Hmiss & Hfl & params & guide & layers & Htr & Hout & _).
  wp_step; simpl; [intros b Hb|intros Hb; congruence].
  rewrite Hl in Hb. injection Hb as <-.
  split; [done|]. split; [done|].
  set (src := fresh_ptr (w_mem w)) in *.
  set (dst := fresh_ptr (w_mem w1)).
  assert (src ≠ dst) as Hne.
  { intros Heq. pose proof (fresh_ptr_fresh (w_mem w1)) as Hf.
    fold dst in Hf. rewrite <- Heq in Hf. congruence. }
  exists src, l, (w_trace w ++ [EvComputeIntensity (m_denoiser d) jit_cuda_stream
                     (optixImage2DfromTensor nt
                        (if decide (shape nt 2 = 3)
                         then OPTIX_PIXEL_FORMAT_FLOAT3
                         else OPTIX_PIXEL_FORMAT_FLOAT4))
                     (m_hdr_intensity d) (m_scratch d) (m_scratch_size d)]),
    params, guide, layers.
  split_and!; try done.
  - by rewrite lookup_insert_ne.
  - apply lookup_insert_eq.
  - rewrite Htr, <- !app_assoc. done.
Qed.

Lemma denoise_bitmap_simple d noisy_ albedo_ch normals_ch flow_ch
    previous_denoised_ch noisy_ch :
  bmp_pixel_format noisy_ ≠ PF_MultiChannel →
  denoise_bitmap d noisy_ albedo_ch normals_ch flow_ch previous_denoised_ch
    noisy_ch
  = (noisy_tensor ← TensorXf_from_data (bmp_data noisy_)
       [bmp_height noisy_; bmp_width noisy_; bmp_channel_count noisy_];
     denoised ← denoise d noisy_tensor None None None None;
     wrap_denoised denoised).
Proof. intros Hpf. unfold denoise_bitmap. by rewrite decide_True. Qed.

Lemma denoise_bitmap_structured d noisy_ albedo_ch normals_ch flow_ch
    previous_denoised_ch noisy_ch :
  bmp_pixel_format noisy_ = PF_MultiChannel →
  denoise_bitmap d noisy_ albedo_ch normals_ch flow_ch previous_denoised_ch
    noisy_ch
  = (let s := resolve albedo_ch normals_ch flow_ch previous_denoised_ch
                noisy_ch (Bitmap_split noisy_) in
     check_channels noisy_ albedo_ch normals_ch flow_ch previous_denoised_ch
       noisy_ch s;;
     nb ← (match noisy_bmp s with
           | Some b => mret b
           | None => throw NullDeref
           end);
     let noisy_tensor_shape :=
       [bmp_height noisy_; bmp_width noisy_; bmp_channel_count nb] in
     noisy_tensor ← TensorXf_from_data (bmp_data nb) noisy_tensor_shape;
     albedo_tensor ←
       tensor_of_bmp (albedo_bmp s) [bmp_height noisy_; bmp_width noisy_; 3];
     normals_tensor ←
       tensor_of_bmp (normals_bmp s) [bmp_height noisy_; bmp_width noisy_; 3];
     flow_tensor ←
       tensor_of_bmp (flow_bmp s) [bmp_height noisy_; bmp_width noisy_; 2];
     previous_denoised_tensor ←
       tensor_of_bmp (previous_denoised_bmp s) noisy_tensor_shape;
     denoised ← denoise d noisy_tensor albedo_tensor normals_tensor
                  flow_tensor previous_denoised_tensor;
     wrap_denoised denoised).
Proof. intros Hpf. unfold denoise_bitmap. by rewrite decide_False by auto. Qed.

Lemma wp_denoise_wrapped d noisy_ nt a n p f w channels :
  t_shape nt = [bmp_height noisy_; bmp_width noisy_; channels] →
  wp (denoised ← denoise d nt a n p f; wrap_denoised denoised) w (λ res w',
    ∀ r, res = Ok r → wrapped d noisy_ channels r w').
Proof.
  intros Hsh. eapply wp_mono; [apply wp_denoise_wrap|].
  intros res w' H r ->. destruct H as (Hr & _ & H).
  unfold shape in Hr. rewrite Hsh in Hr. simpl in Hr.
  unfold wrapped. rewrite Hr. simpl. split_and!; try done.
Qed.

Lemma denoise_bitmap_wrapped d noisy_ albedo_ch normals_ch flow_ch
    previous_denoised_ch noisy_ch w :
  wp (denoise_bitmap d noisy_ albedo_ch normals_ch flow_ch
        previous_denoised_ch noisy_ch) w (λ res w',
    ∀ r, res = Ok r →
    ∃ channels,
      (if decide (bmp_pixel_format noisy_ ≠ PF_MultiChannel)
       then channels = bmp_channel_count noisy_
       else ∃ nb, lookup_layer noisy_ch (Bitmap_split noisy_) = Some nb
                  ∧ channels = bmp_channel_count nb)
      ∧ wrapped d noisy_ channels r w').
Proof.
  destruct (decide (bmp_pixel_format noisy_ ≠ PF_MultiChannel)) as [Hpf|Hpf].
  - rewrite denoise_bitmap_simple by done.
    wp_step. wp_step; [intros k l E Hlen|done].
    eapply wp_mono; [by apply (wp_denoise_wrapped d noisy_)|].
    intros res w' H r Hr. exists (bmp_channel_count noisy_). split; [done|].
    by apply H.
  - apply dec_stable in Hpf. rewrite denoise_bitmap_structured by done.
    cbv zeta.
    pose proof (resolve_spec albedo_ch normals_ch flow_ch previous_denoised_ch
                  noisy_ch (Bitmap_split noisy_)) as Hs.
    cbv zeta in Hs. destruct Hs as (_ & _ & _ & _ & Hnb & _).
    set (s := resolve _ _ _ _ _ _) in *.
    wp_step. unfold wp at 1. rewrite check_channels_run.
    case_bool_decide as Hnone; [done|].
    destruct (negb (found_albedo s)); [done|].
    destruct (negb (found_normals s)); [done|].
    destruct (negb (found_flow s)); [done|].
    destruct (negb (found_previous_denoised s)); [done|].
    simpl.
    destruct (noisy_bmp s) as [nb|] eqn:Enb; [|done].
    wp_step. wp_step. wp_step. wp_step; [intros k l E Hlen|done].
    set (w1 := mkWorld _ _ _).
    wp_step. apply wp_tensor_of_bmp; [intros ta wa _ _ _ _|intros _|done];
    (wp_step; apply wp_tensor_of_bmp; [intros tn wn _ _ _ _|intros _|done];
     (wp_step; apply wp_tensor_of_bmp; [intros tf wf _ _ _ _|intros _|done];
      (wp_step; apply wp_tensor_of_bmp; [intros tp wp0 _ _ _ _|intros _|done];
       (eapply wp_mono; [by apply (wp_denoise_wrapped d noisy_)|];
        intros res w' H r Hr; exists (bmp_channel_count nb);
        split; [by exists nb|by apply H])))).
Qed.

End BitmapForm.

(** * Verified properties of the denoiser *)

(** ** Construction *)

Section Construction.
Context {optix : OptixAPI}.

Lemma wp_Create context kind options w
    (Q : result (OptixResult * N) → world → Prop) :
  (∀ rv handle s, Q (Ok (rv, handle))
     (mkWorld (w_mem w) s (w_trace w ++ [EvCreate context kind options]))) →
  wp (call_optixDenoiserCreate context kind options) w Q.
Proof.
  intros HQ. unfold wp, call_optixDenoiserCreate.
  destruct (optixDenoiserCreate _ _ _ _) as [[rv handle] s]. apply HQ.
Qed.

Lemma wp_ComputeMemoryResources den width height w
    (Q : result (OptixResult * OptixDenoiserSizes) → world → Prop) :
  (∀ q, Q (Ok q)
     (mkWorld (w_mem w) (w_optix w)
        (w_trace w ++ [EvComputeMemoryResources den width height]))) →
  wp (call_optixDenoiserComputeMemoryResources den width height) w Q.
Proof. intros HQ. apply HQ. Qed.

Lemma wp_Setup den stream width height st sts sc scs w
    (Q : result OptixResult → world → Prop) :
  (∀ rv s, Q (Ok rv)
     (mkWorld (w_mem w) s
        (w_trace w ++ [EvSetup den stream width height st sts sc scs]))) →
  wp (call_optixDenoiserSetup den stream width height st sts sc scs) w Q.
Proof.
  intros HQ. unfold wp, call_optixDenoiserSetup.
  destruct (optixDenoiserSetup _ _ _ _ _ _ _ _ _) as [rv s]. apply HQ.
Qed.

(** C2. Construction with normals but without albedo throws the
    configuration error before anything is allocated or any engine call is
    made; every other combination of the three flags never throws it: the
    constructor then returns an instance carrying the flags, unless an engine
    call reports a failure. *)
Theorem Denoiser_new_configuration input_size albedo normals temporal w :
  if normals && negb albedo
  then Denoiser_new input_size albedo normals temporal w
       = (Err (Exception normals_without_albedo_msg), w)
  else match fst (Denoiser_new input_size albedo normals temporal w) with
       | Ok d => m_options d = mkOptions albedo normals
                 ∧ m_temporal d = temporal
       | Err (OptixError _) => True
       | Err _ => False
       end.
Proof.
  unfold Denoiser_new. destruct (normals && negb albedo); [done|].
  cbv zeta.
  match goal with
  | |- context [fst (?m w)] =>
      change (wp m w
                (λ r _, match r with
                        | Ok d => m_options d = mkOptions albedo normals
                                  ∧ m_temporal d = temporal
                        | Err (OptixError _) => True
                        | Err _ => False
                        end))
  end.
  wp_step. apply wp_ret.
  wp_step. apply wp_Create. intros rv handle s. simpl.
  wp_step. wp_step; [|done].
  wp_step. apply wp_ComputeMemoryResources. intros [rv' sizes]. simpl.
  wp_step. wp_step; [|done].
  wp_step. apply wp_alloc. wp_step. apply wp_alloc.
  wp_step. apply wp_Setup. intros rv'' s''. simpl.
  wp_step. wp_step; [|done].
  wp_step. apply wp_alloc. by wp_step.
Qed.

End Construction.

Section TensorClaims.
Context {optix : OptixAPI}.

(** C3. The coordinate change is an involution: on a normals tensor whose
    array has a multiple of three entries, running it twice leaves the world,
    and with it the array, as it was. *)
Theorem correct_normals_involutive t w k l :
  w_mem w !! t_array t = Some (Floats k l) →
  (length l mod 3 = 0)%nat →
  (correct_normals t;; correct_normals t) w = (Ok tt, w).
Proof.
  intros H _.
  erewrite bind_ok by by eapply correct_normals_run.
  erewrite correct_normals_run by apply lookup_insert_eq.
  simpl. rewrite insert_insert_eq, corrected_involutive, insert_id by done.
  by destruct w.
Qed.

(** C4. With normals guidance on, the array of the normals tensor the
    caller passed holds the same entries after the call as before it, however
    the call ends.  When the call returns, the engine was invoked with a
    normal guide image over an array allocated during the call, which holds
    the caller's entries after the coordinate change. *)
Theorem denoise_keeps_normals d noisy albedo nrm prev flow w k l r w' :
  guideNormal (m_options d) = true →
  w_mem w !! t_array nrm = Some (Floats k l) →
  denoise d noisy albedo (Some nrm) prev flow w = (r, w') →
  w_mem w' !! t_array nrm = Some (Floats k l)
  ∧ (∀ t, r = Ok t →
     ∃ cp params guide layers,
       w_mem w !! cp = None
       ∧ w_mem w' !! cp = Some (Floats Device (corrected l))
       ∧ last (w_trace w')
         = Some (EvInvoke (m_denoiser d) jit_cuda_stream params (m_state d)
                   (m_state_size d) guide layers 1 0 0 (m_scratch d)
                   (m_scratch_size d))
       ∧ guide_normal guide
         = optixImage2DfromTensor (mkTensor cp (t_shape nrm))
             OPTIX_PIXEL_FORMAT_FLOAT3).
Proof.
  intros Hflag Hnrm Hrun. split.
  - eapply lookup_weaken; [exact Hnrm|].
    exact (wp_elim _ _ _ _ _ (denoise_frame d noisy albedo (Some nrm) prev flow w)
             Hrun).
  - exact (wp_elim _ _ _ _ _
             (denoise_normal_guide d noisy albedo nrm prev flow w k l Hflag Hnrm)
             Hrun).
Qed.

(** C5. For a noisy tensor of shape [(h, w, c)] with [c] 3 or 4 whose array
    is allocated, and with the optional inputs the configuration reads
    supplied, the call returns a tensor of shape [(h, w, c)] whenever the
    engine reports no failure, whatever the guide and temporal flags are. *)
Theorem denoise_preserves_shape d noisy albedo normals prev flow w h wd c :
  t_shape noisy = [h; wd; c] →
  c = 3 ∨ c = 4 →
  is_floats (w_mem w) (t_array noisy) →
  ¬ missing_input d albedo normals prev flow →
  (∀ nrm, guideNormal (m_options d) = true → normals = Some nrm →
          is_floats (w_mem w) (t_array nrm)) →
  (∀ code, fst (denoise d noisy albedo normals prev flow w)
           ≠ Err (OptixError code)) →
  ∃ t w', denoise d noisy albedo normals prev flow w = (Ok t, w')
          ∧ t_shape t = [h; wd; c].
Proof.
  intros Hsh _ Hnoisy Hmiss Hnrm Hengine.
  pose proof (denoise_outcome d noisy albedo normals prev flow w) as Hout.
  unfold wp in Hout.
  destruct (denoise d noisy albedo normals prev flow w) as [[t|e] w'].
  - exists t, w'. split; [done|]. simpl in Hout. destruct Hout as (-> & _).
    simpl. unfold shape. by rewrite Hsh.
  - exfalso. simpl in *. destruct e as [msg|code| |].
    + done.
    + by apply (Hengine code).
    + by destruct Hout.
    + destruct Hout as [Hbad|(Hflag & nrm & -> & Hbad)]; [done|].
      apply Hbad. by apply Hnrm.
Qed.

(** C10. On an instance without albedo, normals and temporal mode, a call
    with other optional arguments is the same computation: the same outcome,
    memory, engine state and log of engine calls. *)
Theorem denoise_unguided_optionals_unread d noisy
    albedo normals prev flow albedo' normals' prev' flow' w :
  guideAlbedo (m_options d) = false →
  guideNormal (m_options d) = false →
  m_temporal d = false →
  denoise d noisy albedo normals prev flow w
  = denoise d noisy albedo' normals' prev' flow' w.
Proof.
  intros Ha Hn Ht. unfold denoise. by rewrite Ha, Hn, Ht.
Qed.

End TensorClaims.

Ltac solve_elem :=
  repeat first [apply list_elem_of_here | apply list_elem_of_further].

Section BitmapClaims.
Context {optix : OptixAPI} {bitmaps : BitmapAPI}.

Lemma missing_input_none d :
  missing_input d None None None None ↔
  guideAlbedo (m_options d) = true ∨ guideNormal (m_options d) = true
  ∨ m_temporal d = true.
Proof.
  unfold missing_input. split.
  - intros [[? _]|[[? _]|[? _]]]; auto.
  - intros [?|[?|?]]; auto.
Qed.

(** The outcomes of the simple mode. *)
Lemma denoise_bitmap_simple_outcome d noisy_ albedo_ch normals_ch flow_ch
    previous_denoised_ch noisy_ch w :
  bmp_pixel_format noisy_ ≠ PF_MultiChannel →
  wp (denoise_bitmap d noisy_ albedo_ch normals_ch flow_ch
        previous_denoised_ch noisy_ch) w (λ res _,
    match res with
    | Ok _ => ¬ missing_input d None None None None
    | Err (Exception _) => False
    | Err (OptixError _) => True
    | Err NullDeref => missing_input d None None None None
    | Err MemoryFault =>
        ¬ holds_floats (w_mem w) (bmp_data noisy_)
            (shape_size [bmp_height noisy_; bmp_width noisy_;
                         bmp_channel_count noisy_])
    end).
Proof.
  intros Hpf. rewrite denoise_bitmap_simple by done.
  wp_step. wp_step; [intros k l E Hlen|done].
  eapply wp_mono; [apply wp_denoise_wrap|].
  intros [r|e] w'; simpl.
  - by intros (_ & ? & _).
  - destruct e as [msg|code| |]; try done.
    + by intros [? _].
    + intros [Hbad|(_ & nrm & ? & _)]; [|done].
      exfalso. apply Hbad. eexists _, _. apply lookup_insert_eq.
Qed.

(** C7. In structured mode, when the noisy name or a non-empty guide name
    matches no sub-image, the call throws the missing-channel exception for
    one of the unmatched names; the text holds that name and the description
    of the image, and the world is as before the call: nothing was
    allocated and no engine call was made. *)
Theorem denoise_bitmap_missing_channel d noisy_ albedo_ch normals_ch flow_ch
    previous_denoised_ch noisy_ch w :
  bmp_pixel_format noisy_ = PF_MultiChannel →
  (noisy_ch ∉ fst <$> Bitmap_split noisy_)
  ∨ (albedo_ch ≠ EmptyString ∧ albedo_ch ∉ (fst <$> Bitmap_split noisy_))
  ∨ (normals_ch ≠ EmptyString ∧ normals_ch ∉ (fst <$> Bitmap_split noisy_))
  ∨ (flow_ch ≠ EmptyString ∧ flow_ch ∉ (fst <$> Bitmap_split noisy_))
  ∨ (previous_denoised_ch ≠ EmptyString
     ∧ previous_denoised_ch ∉ (fst <$> Bitmap_split noisy_)) →
  ∃ channel,
    channel ∈ [noisy_ch; albedo_ch; normals_ch; flow_ch; previous_denoised_ch]
    ∧ (channel ∉ fst <$> Bitmap_split noisy_)
    ∧ (denoise_bitmap d noisy_ albedo_ch normals_ch flow_ch
         previous_denoised_ch noisy_ch w
       = (Err (Exception (missing_channel_msg noisy_ channel)), w))
    ∧ ∃ pre mid,
        missing_channel_msg noisy_ channel
        = (pre ++ channel ++ mid ++ Bitmap_to_string noisy_)%string.
Proof.
  intros Hpf Hmissing.
  rewrite denoise_bitmap_structured by done. cbv zeta.
  pose proof (resolve_spec albedo_ch normals_ch flow_ch previous_denoised_ch
                noisy_ch (Bitmap_split noisy_)) as Hs.
  cbv zeta in Hs.
  destruct Hs as (_ & _ & _ & _ & Hnb & Hfa & Hfn & Hff & Hfp).
  set (s := resolve _ _ _ _ _ _) in *. clearbody s.
  assert (∀ c, ∃ pre mid,
            missing_channel_msg noisy_ c
            = (pre ++ c ++ mid ++ Bitmap_to_string noisy_)%string) as Hmsg.
  { intros c.
    exists "Could not find rendered image with channel name '"%string,
      ("' in:" ++ newline)%string.
    reflexivity. }
  assert (∀ name found,
            found = String.eqb name EmptyString
                    || has_layer name (Bitmap_split noisy_) →
            negb found = true →
            name ≠ EmptyString ∧ name ∉ (fst <$> Bitmap_split noisy_)) as Hnot.
  { intros name found -> Hneg. apply negb_true_iff, orb_false_iff in Hneg.
    destruct Hneg as [Hne Hl]. split.
    - by apply String.eqb_neq.
    - by apply has_layer_false. }
  assert (∀ name found,
            found = String.eqb name EmptyString
                    || has_layer name (Bitmap_split noisy_) →
            negb found = false →
            ¬ (name ≠ EmptyString ∧ name ∉ (fst <$> Bitmap_split noisy_))) as Hyes.
  { intros name found -> Hneg [Hne Hl].
    apply negb_false_iff, orb_true_iff in Hneg as [He|Hh].
    - by apply String.eqb_eq in He.
    - apply has_layer_false in Hl. congruence. }
  assert (∀ (k : unit → M Bitmap) c,
            ((λ w, (Err (Exception (missing_channel_msg noisy_ c)), w)) ≫= k) w
            = (Err (Exception (missing_channel_msg noisy_ c)), w)) as Hthrow
    by done.
  unfold mbind at 1, M_bind, bind. rewrite check_channels_run.
  case_bool_decide as Hnone.
  { exists noisy_ch. split_and!; [solve_elem| |done|done].
    apply lookup_layer_None. congruence. }
  destruct (negb (found_albedo s)) eqn:Ea.
  { destruct (Hnot _ _ Hfa Ea). exists albedo_ch.
    split_and!; [solve_elem|done|done|done]. }
  destruct (negb (found_normals s)) eqn:En.
  { destruct (Hnot _ _ Hfn En). exists normals_ch.
    split_and!; [solve_elem|done|done|done]. }
  destruct (negb (found_flow s)) eqn:Ef.
  { destruct (Hnot _ _ Hff Ef). exists flow_ch.
    split_and!; [solve_elem|done|done|done]. }
  destruct (negb (found_previous_denoised s)) eqn:Ep.
  { destruct (Hnot _ _ Hfp Ep). exists previous_denoised_ch.
    split_and!; [solve_elem|done|done|done]. }
  exfalso. destruct Hmissing as [H|[H|[H|[H|H]]]].
  - apply Hnone. rewrite Hnb. by apply lookup_layer_None.
  - by apply (Hyes _ _ Hfa Ea).
  - by apply (Hyes _ _ Hfn En).
  - by apply (Hyes _ _ Hff Ef).
  - by apply (Hyes _ _ Hfp Ep).
Qed.

(** C8. A call of the tensor form that is given every optional input its
    configuration reads never dereferences a null pointer.  The simple mode
    of the [Bitmap] form passes null for all four: on an instance without
    guides and temporal mode it never dereferences null; on any other
    instance it never returns: it ends in the null dereference, unless the
    engine reported a failure first or the image data is not in place. *)
Theorem optional_inputs_guarded d noisy albedo normals prev flow w
    noisy_ albedo_ch normals_ch flow_ch previous_denoised_ch noisy_ch :
  ¬ missing_input d albedo normals prev flow →
  bmp_pixel_format noisy_ ≠ PF_MultiChannel →
  fst (denoise d noisy albedo normals prev flow w) ≠ Err NullDeref
  ∧ (let outcome :=
       fst (denoise_bitmap d noisy_ albedo_ch normals_ch flow_ch
              previous_denoised_ch noisy_ch w) in
     if guideAlbedo (m_options d) || guideNormal (m_options d) || m_temporal d
     then match outcome with
          | Ok _ => False
          | Err (Exception _) => False
          | Err (OptixError _) => True
          | Err NullDeref => True
          | Err MemoryFault =>
              ¬ holds_floats (w_mem w) (bmp_data noisy_)
                  (shape_size [bmp_height noisy_; bmp_width noisy_;
                               bmp_channel_count noisy_])
          end
     else outcome ≠ Err NullDeref).
Proof.
  intros Hmiss Hpf. split.
  - intros Hnull.
    pose proof (denoise_outcome d noisy albedo normals prev flow w) as Hout.
    unfold wp in Hout. rewrite Hnull in Hout. by destruct Hout.
  - intros outcome.
    pose proof (denoise_bitmap_simple_outcome d noisy_ albedo_ch normals_ch
                  flow_ch previous_denoised_ch noisy_ch w Hpf) as Hout.
    unfold wp in Hout. fold outcome in Hout. clearbody outcome.
    pose proof (missing_input_none d) as Hnone.
    destruct (guideAlbedo (m_options d)), (guideNormal (m_options d)),
      (m_temporal d); simpl;
      destruct outcome as [r|[msg|code| |]]; try done;
      try (apply Hout, Hnone; auto);
      try (intros _; apply Hnone in Hout as [?|[?|?]]; done).
Qed.

(** C9 (amended). A successful call of the [Bitmap] form returns an image
    in RGB when the denoised tensor has three channels and in RGBA otherwise
    (so with four), of the width and height of the image passed in; its
    buffer is host memory holding the entries of the device array the engine
    wrote, and the last calls issued are the engine invocation, the
    migration of that array to the host and the synchronisation. *)
Theorem denoise_bitmap_result d noisy_ albedo_ch normals_ch flow_ch
    previous_denoised_ch noisy_ch w r w' :
  denoise_bitmap d noisy_ albedo_ch normals_ch flow_ch previous_denoised_ch
    noisy_ch w = (Ok r, w') →
  ∃ channels,
    (if decide (bmp_pixel_format noisy_ ≠ PF_MultiChannel)
     then channels = bmp_channel_count noisy_
     else ∃ nb, lookup_layer noisy_ch (Bitmap_split noisy_) = Some nb
                ∧ channels = bmp_channel_count nb)
    ∧ bmp_pixel_format r = (if decide (channels = 3) then PF_RGB else PF_RGBA)
    ∧ bmp_component_format r = Float32
    ∧ bmp_channel_count r = channels
    ∧ bmp_size r = (to_uint (bmp_width noisy_), to_uint (bmp_height noisy_))
    ∧ ∃ src l tr params guide layers,
        src ≠ bmp_data r
        ∧ w_mem w' !! src = Some (Floats Device l)
        ∧ w_mem w' !! bmp_data r = Some (Floats Host l)
        ∧ img_data (layer_output layers) = src
        ∧ w_trace w'
          = tr ++ [EvInvoke (m_denoiser d) jit_cuda_stream params
                     (m_state d) (m_state_size d) guide layers 1 0 0
                     (m_scratch d) (m_scratch_size d);
                   EvMallocMigrate src (bmp_data r) Host;
                   EvSyncThread].
Proof.
  intros Hrun.
  destruct (wp_elim _ _ _ _ _
              (denoise_bitmap_wrapped d noisy_ albedo_ch normals_ch flow_ch
                 previous_denoised_ch noisy_ch w) Hrun r eq_refl)
    as (channels & Hch & Hw).
  exists channels. split; [exact Hch|]. exact Hw.
Qed.

End BitmapClaims.

(** * Further verified properties *)

(** ** Further properties: descriptors *)

Section Descriptors.

(** X1. For a tensor of shape [[h; w; c]] whose extents and strides in bytes
    fit 32 bits, the descriptor points at the tensor's array, has width [w]
    and height [h], a pixel stride of [4 * c] bytes and a row stride of
    exactly width times pixel stride: rows are packed without padding. *)
Theorem optixImage2DfromTensor_packed tensor pixel_format h w c :
  t_shape tensor = [h; w; c] →
  h < 2 ^ 32 → w < 2 ^ 32 → c * 4 < 2 ^ 32 → w * c * 4 < 2 ^ 32 →
  let img := optixImage2DfromTensor tensor pixel_format in
  img_data img = t_array tensor
  ∧ img_width img = w
  ∧ img_height img = h
  ∧ img_pixelStrideInBytes img = c * 4
  ∧ img_rowStrideInBytes img = img_width img * img_pixelStrideInBytes img
  ∧ img_format img = pixel_format.
Proof.
  intros Hsh Hh Hw Hc Hwc img. subst img.
  unfold optixImage2DfromTensor, shape, to_uint, size_t_mul, size_t_max,
    sizeof_float. rewrite Hsh. simpl.
  assert (2 ^ 32 < 2 ^ 64) by (vm_compute; reflexivity).
  rewrite !(N.mod_small w), !(N.mod_small h) by lia.
  rewrite (N.mod_small (c * 4)) by lia.
  rewrite (N.mod_small (c * 4)) by lia.
  assert (w * c < 2 ^ 32) by nia.
  rewrite (N.mod_small (w * c)) by lia.
  rewrite (N.mod_small (w * c * 4)) by lia.
  rewrite (N.mod_small (w * c * 4)) by lia.
  split_and!; try done. lia.
Qed.

End Descriptors.

Section ConstructionMore.
Context {optix : OptixAPI}.

(** Everything the constructor does, by outcome. *)
Lemma Denoiser_new_outcome input_size albedo normals temporal w :
  wp (Denoiser_new input_size albedo normals temporal) w (λ r w',
    let kind := if temporal then OPTIX_DENOISER_MODEL_KIND_TEMPORAL
                else OPTIX_DENOISER_MODEL_KIND_HDR in
    let create := EvCreate jit_optix_context kind (mkOptions albedo normals) in
    let st := fresh_ptr (w_mem w) in
    match r with
    | Ok d =>
        let mem1 := <[st := Raw Device (m_state_size d)]> (w_mem w) in
        let sc := fresh_ptr mem1 in
        let mem2 := <[sc := Raw Device (m_scratch_size d)]> mem1 in
        let hdr := fresh_ptr mem2 in
        m_options d = mkOptions albedo normals ∧ m_temporal d = temporal
        ∧ m_state d = st ∧ m_scratch d = sc ∧ m_hdr_intensity d = hdr
        ∧ w_mem w' = <[hdr := Raw Device sizeof_float]> mem2
        ∧ w_trace w'
          = w_trace w
            ++ [create;
                EvComputeMemoryResources (m_denoiser d) (fst input_size)
                  (snd input_size);
                EvSetup (m_denoiser d) jit_cuda_stream (fst input_size)
                  (snd input_size) (m_state d) (m_state_size d) (m_scratch d)
                  (m_scratch_size d)]
    | Err (Exception msg) =>
        msg = normals_without_albedo_msg ∧ w' = w
        ∧ normals && negb albedo = true
    | Err (OptixError code) =>
        code ≠ OPTIX_SUCCESS
        ∧ ((w_mem w' = w_mem w
            ∧ (w_trace w' = w_trace w ++ [create]
               ∨ ∃ den, w_trace w'
                        = w_trace w
                          ++ [create;
                              EvComputeMemoryResources den (fst input_size)
                                (snd input_size)]))
           ∨ ∃ den sts scs,
               let mem1 := <[st := Raw Device sts]> (w_mem w) in
               let sc := fresh_ptr mem1 in
               w_mem w' = <[sc := Raw Device scs]> mem1
               ∧ w_trace w'
                 = w_trace w
                   ++ [create;
                       EvComputeMemoryResources den (fst input_size)
                         (snd input_size);
                       EvSetup den jit_cuda_stream (fst input_size)
                         (snd input_size) st sts sc scs])
    | Err _ => False
    end).
Proof.
  unfold Denoiser_new. destruct (normals && negb albedo) eqn:Hcfg.
  { apply wp_throw. done. }
  cbv zeta.
  wp_step. apply wp_ret.
  wp_step. apply wp_Create. intros rv handle s. simpl.
  wp_step. wp_step; [|split; [done|]; left; split; [done|by left]].
  wp_step. apply wp_ComputeMemoryResources. intros [rv' sizes]. simpl.
  wp_step. wp_step.
  2:{ split; [done|]. left. split; [done|]. right. exists handle.
      by rewrite <- app_assoc. }
  wp_step. apply wp_alloc. wp_step. apply wp_alloc.
  wp_step. apply wp_Setup. intros rv'' s''. simpl.
  wp_step. wp_step.
  2:{ split; [done|]. right. eexists handle, _, _. simpl. split; [done|].
      by rewrite <- !app_assoc. }
  wp_step. apply wp_alloc. wp_step. simpl.
  split_and!; try done. by rewrite <- !app_assoc.
Qed.

End ConstructionMore.

Section ConstructionTheorems.
Context {optix : OptixAPI}.

(** X2. A successful construction allocates three blocks at three different,
    non-null addresses that were free before: the state and scratch blocks
    with the sizes recorded in the instance and a block of four bytes for
    the intensity, all in device memory; every other address keeps what it
    held. *)
Theorem Denoiser_new_buffers input_size albedo normals temporal w d w' :
  Denoiser_new input_size albedo normals temporal w = (Ok d, w') →
  NoDup [m_state d; m_scratch d; m_hdr_intensity d]
  ∧ Forall (λ p, p ≠ nullptr ∧ w_mem w !! p = None)
      [m_state d; m_scratch d; m_hdr_intensity d]
  ∧ w_mem w' !! m_state d = Some (Raw Device (m_state_size d))
  ∧ w_mem w' !! m_scratch d = Some (Raw Device (m_scratch_size d))
  ∧ w_mem w' !! m_hdr_intensity d = Some (Raw Device 4)
  ∧ ∀ p, p ∉ [m_state d; m_scratch d; m_hdr_intensity d] →
         w_mem w' !! p = w_mem w !! p.
Proof.
  intros Hrun.
  pose proof (wp_elim _ _ _ _ _
                (Denoiser_new_outcome input_size albedo normals temporal w)
                Hrun) as H.
  cbv zeta in H. destruct H as (_ & _ & Hst & Hsc & Hhdr & Hmem & _).
  rewrite Hmem. clear Hmem.
  set (mem1 := <[fresh_ptr (w_mem w) := Raw Device (m_state_size d)]> (w_mem w))
    in *.
  set (mem2 := <[fresh_ptr mem1 := Raw Device (m_scratch_size d)]> mem1) in *.
  rewrite Hst, Hsc, Hhdr. clear Hst Hsc Hhdr.
  set (st := fresh_ptr (w_mem w)) in *.
  set (sc := fresh_ptr mem1) in *. set (hdr := fresh_ptr mem2) in *.
  assert (w_mem w !! st = None) as Fst by apply fresh_ptr_fresh.
  assert (mem1 !! sc = None) as Fsc by apply fresh_ptr_fresh.
  assert (mem2 !! hdr = None) as Fhdr by apply fresh_ptr_fresh.
  assert (mem1 !! st = Some (Raw Device (m_state_size d))) as Est
    by apply lookup_insert_eq.
  assert (mem2 !! sc = Some (Raw Device (m_scratch_size d))) as Esc
    by apply lookup_insert_eq.
  assert (st ≠ sc) as Hne1 by congruence.
  assert (mem2 !! st = Some (Raw Device (m_state_size d))) as Est2.
  { unfold mem2. by rewrite lookup_insert_ne. }
  assert (st ≠ hdr) as Hne2 by congruence.
  assert (sc ≠ hdr) as Hne3 by congruence.
  assert (w_mem w !! sc = None) as Fsc0.
  { eapply lookup_weaken_None; [exact Fsc|]. by apply insert_subseteq. }
  assert (w_mem w !! hdr = None) as Fhdr0.
  { eapply lookup_weaken_None; [exact Fhdr|]. unfold mem2, mem1.
    etrans; [|by apply insert_subseteq]. by apply insert_subseteq. }
  split_and!.
  - repeat constructor; rewrite ?elem_of_cons, ?elem_of_nil; intuition congruence.
  - repeat constructor; try done; apply fresh_ptr_not_null.
  - by rewrite lookup_insert_ne.
  - by rewrite lookup_insert_ne.
  - apply lookup_insert_eq.
  - intros p Hp. rewrite !not_elem_of_cons in Hp. destruct Hp as (? & ? & ? & _).
    rewrite lookup_insert_ne by done.
    unfold mem2. rewrite lookup_insert_ne by done.
    unfold mem1. by rewrite lookup_insert_ne.
Qed.

(** X3. A successful construction makes exactly three engine calls, in this
    order: creation in the JIT context with the temporal model kind exactly
    when [temporal] is set and with the two guide options, the memory
    query for the handle and the input size, and the setup on the JIT
    stream for the same handle and size with the state and scratch buffers
    and sizes the instance records. *)
Theorem Denoiser_new_engine_calls input_size albedo normals temporal w d w' :
  Denoiser_new input_size albedo normals temporal w = (Ok d, w') →
  w_trace w'
  = w_trace w
    ++ [EvCreate jit_optix_context
          (if temporal then OPTIX_DENOISER_MODEL_KIND_TEMPORAL
           else OPTIX_DENOISER_MODEL_KIND_HDR)
          (mkOptions albedo normals);
        EvComputeMemoryResources (m_denoiser d) (fst input_size)
          (snd input_size);
        EvSetup (m_denoiser d) jit_cuda_stream (fst input_size)
          (snd input_size) (m_state d) (m_state_size d) (m_scratch d)
          (m_scratch_size d)].
Proof.
  intros Hrun.
  pose proof (wp_elim _ _ _ _ _
                (Denoiser_new_outcome input_size albedo normals temporal w)
                Hrun) as H.
  cbv zeta in H. by destruct H as (_ & _ & _ & _ & _ & _ & Htr).
Qed.

(** X4. A construction fails only with the exception of the configuration
    check, before anything is done, or with an error code of the engine
    other than success.  When the refused call is the creation or the
    memory query the memory is as before; when it is the setup, the state
    and scratch blocks allocated for it stay allocated. *)
Theorem Denoiser_new_failure input_size albedo normals temporal w e w' :
  Denoiser_new input_size albedo normals temporal w = (Err e, w') →
  match e with
  | Exception msg =>
      msg = normals_without_albedo_msg ∧ w' = w
  | OptixError code =>
      code ≠ OPTIX_SUCCESS
      ∧ match last (w_trace w') with
        | Some (EvSetup _ _ _ _ st sts sc scs) =>
            st ≠ sc ∧ w_mem w !! st = None ∧ w_mem w !! sc = None
            ∧ w_mem w' = <[sc := Raw Device scs]> (<[st := Raw Device sts]> (w_mem w))
        | _ => w_mem w' = w_mem w
        end
  | _ => False
  end.
Proof.
  intros Hrun.
  pose proof (wp_elim _ _ _ _ _
                (Denoiser_new_outcome input_size albedo normals temporal w)
                Hrun) as H.
  cbv zeta in H. destruct e as [msg|code| |]; try done.
  - by destruct H as (? & ? & _).
  - destruct H as [Hcode [[Hmem [Htr|[den Htr]]]|(den & sts & scs & Hmem & Htr)]];
      (split; [done|]); rewrite Htr.
    + by rewrite last_snoc.
    + by rewrite last_app.
    + rewrite last_app. simpl.
      set (st := fresh_ptr (w_mem w)) in *.
      set (mem1 := <[st := Raw Device sts]> (w_mem w)) in *.
      assert (w_mem w !! st = None) as Fst by apply fresh_ptr_fresh.
      assert (mem1 !! fresh_ptr mem1 = None) as Fsc by apply fresh_ptr_fresh.
      assert (mem1 !! st = Some (Raw Device sts)) by apply lookup_insert_eq.
      split_and!; try done.
      * congruence.
      * eapply lookup_weaken_None; [exact Fsc|]. by apply insert_subseteq.
Qed.

End ConstructionTheorems.

Section TensorMore.
Context {optix : OptixAPI}.

Lemma overwrite_length old new : length (overwrite old new) = length old.
Proof.
  unfold overwrite. rewrite length_take, length_app, length_drop. lia.
Qed.

(** The engine calls and the output array of the tensor form, by outcome. *)
Lemma denoise_details d noisy albedo normals prev flow w :
  wp (denoise d noisy albedo normals prev flow) w (λ r w',
    let input := optixImage2DfromTensor noisy (input_format noisy) in
    let out := fresh_ptr (w_mem w) in
    match r with
    | Ok t =>
        ∃ gn k l l',
          t_array t = out
          ∧ w_mem w !! t_array noisy = Some (Floats k l)
          ∧ w_mem w' !! out = Some (Floats Device l')
          ∧ length l' = length l
          ∧ (guideNormal (m_options d) = false → gn = zero_image)
          ∧ w_trace w'
            = w_trace w
              ++ [intensity_event d noisy;
                  invoke_event d
                    (mkGuideLayer
                       (guarded_image (guideAlbedo (m_options d)) albedo
                          OPTIX_PIXEL_FORMAT_FLOAT3)
                       gn
                       (guarded_image (m_temporal d) flow
                          OPTIX_PIXEL_FORMAT_FLOAT2))
                    (mkLayer input
                       (guarded_image (m_temporal d) prev (input_format noisy))
                       (mkImage2D out (img_width input) (img_height input)
                          (img_rowStrideInBytes input)
                          (img_pixelStrideInBytes input) (img_format input)))]
    | Err (Exception _) => False
    | Err NullDeref => w_trace w' = w_trace w ++ [intensity_event d noisy]
    | Err MemoryFault =>
        w_trace w' = w_trace w
        ∨ w_trace w' = w_trace w ++ [intensity_event d noisy]
    | Err (OptixError code) =>
        code ≠ OPTIX_SUCCESS
        ∧ (w_trace w' = w_trace w ++ [intensity_event d noisy]
           ∨ ∃ guide layers,
               w_trace w'
               = w_trace w
                 ++ [intensity_event d noisy; invoke_event d guide layers])
    end).
Proof.
  unfold denoise. cbv zeta. fold (input_format noisy).
  wp_step. wp_step; [intros k l E|by left].
  wp_step. wp_step. wp_step. wp_step. simpl. fold (intensity_event d noisy).
  wp_step. wp_step; [|split; [done|by left]].
  simpl.
  set (out := fresh_ptr (w_mem w)).
  set (mem1 := <[out := _]> (w_mem w)).
  set (tr1 := w_trace w ++ _).
  assert (mem1 !! out = Some (Floats Device
            (replicate (N.to_nat (N.of_nat (length l))) fzero))) as Hout
    by apply lookup_insert_eq.
  wp_step.
  eapply wp_mono with
    (Q := λ r w1, w_mem w1 = mem1 ∧ w_trace w1 = tr1
                  ∧ match r with
                    | Ok ga => ga = guarded_image (guideAlbedo (m_options d))
                                      albedo OPTIX_PIXEL_FORMAT_FLOAT3
                    | Err e => e = NullDeref
                    end).
  { unfold guarded_image. repeat wp_step; done. }
  intros [ga|e] w1 (Hw1 & Htr1 & Hr); [subst ga|by subst e].
  wp_step.
  eapply wp_mono with
    (Q := λ r w2, w_trace w2 = tr1
                  ∧ match r with
                    | Ok gn => w_mem w2 !! out = mem1 !! out
                               ∧ (guideNormal (m_options d) = false →
                                  gn = zero_image)
                    | Err e => e = NullDeref ∨ e = MemoryFault
                    end).
  { wp_step; [|wp_step; by rewrite Hw1].
    wp_step. wp_step; [|split; [done|by left]].
    wp_step. wp_step; [intros kn ln En|intros Hbad; split; [done|by right]].
    wp_step. eapply wp_correct_normals; [apply lookup_insert_eq|].
    wp_step. simpl. split; [done|]. split; [|done].
    rewrite insert_insert_eq, Hw1.
    apply lookup_insert_ne. intros Heq.
    pose proof (fresh_ptr_fresh mem1) as Hf. rewrite Heq in Hf. congruence. }
  intros [gn|e] w2 [Htr2 Hr].
  2:{ destruct Hr as [->| ->]; [done|by right]. }
  destruct Hr as [Hw2 Hgn].
  wp_step.
  eapply wp_mono with
    (Q := λ r w3, w3 = w2
                  ∧ match r with
                    | Ok tl => tl = (guarded_image (m_temporal d) flow
                                       OPTIX_PIXEL_FORMAT_FLOAT2,
                                     guarded_image (m_temporal d) prev
                                       (input_format noisy))
                    | Err e => e = NullDeref
                    end).
  { unfold guarded_image. repeat wp_step; done. }
  intros [tl|e] w3 [-> Hr]; [subst tl|by subst e].
  wp_step. wp_step. simpl. rewrite Htr2. unfold tr1. rewrite <- app_assoc. simpl.
  wp_step. wp_step.
  2:{ split; [done|]. right. eexists _, _. reflexivity. }
  wp_step.
  exists gn, k, l,
    (overwrite (replicate (N.to_nat (N.of_nat (length l))) fzero) out0).
  split_and!; try done.
  - simpl. rewrite Hout in Hw2. by eapply engine_store_lookup_eq.
  - rewrite overwrite_length, length_replicate. lia.
Qed.

End TensorMore.

Section TensorTheorems.
Context {optix : OptixAPI}.

(** X5. A successful call of the tensor form makes exactly two engine
    calls: the intensity computation on the descriptor of the noisy tensor,
    then one invocation whose input is that same descriptor and whose
    output is the descriptor, of the same shape and format, of the array
    returned; the returned array is an address free before the call, hence
    never the noisy tensor's. *)
Theorem denoise_engine_calls d noisy albedo normals prev flow w t w' :
  denoise d noisy albedo normals prev flow w = (Ok t, w') →
  ∃ guide layers,
    w_trace w'
    = w_trace w ++ [intensity_event d noisy; invoke_event d guide layers]
    ∧ layer_input layers = optixImage2DfromTensor noisy (input_format noisy)
    ∧ layer_output layers
      = optixImage2DfromTensor (mkTensor (t_array t) (t_shape noisy))
          (input_format noisy)
    ∧ t_array t ≠ t_array noisy
    ∧ w_mem w !! t_array t = None.
Proof.
  intros Hrun.
  pose proof (wp_elim _ _ _ _ _
                (denoise_details d noisy albedo normals prev flow w) Hrun) as H.
  cbv zeta in H. destruct H as (gn & k & l & l' & Ht & En & _ & _ & _ & Htr).
  eexists _, _. split; [exact Htr|]. simpl. rewrite Ht.
  assert (w_mem w !! fresh_ptr (w_mem w) = None) as Hf by apply fresh_ptr_fresh.
  split_and!; try done. congruence.
Qed.

(** X6. In the invocation of a successful call the albedo guide is the
    descriptor of the albedo tensor when the albedo option is set and the
    zero descriptor otherwise, the flow guide and the previous output are
    the descriptors of the flow and previous tensors when the instance is
    temporal and zero descriptors otherwise, and the normal guide is the
    zero descriptor when the normal option is off. *)
Theorem denoise_guide_layers d noisy albedo normals prev flow w t w' :
  denoise d noisy albedo normals prev flow w = (Ok t, w') →
  ∃ guide layers,
    last (w_trace w') = Some (invoke_event d guide layers)
    ∧ guide_albedo guide
      = guarded_image (guideAlbedo (m_options d)) albedo
          OPTIX_PIXEL_FORMAT_FLOAT3
    ∧ guide_flow guide
      = guarded_image (m_temporal d) flow OPTIX_PIXEL_FORMAT_FLOAT2
    ∧ layer_previousOutput layers
      = guarded_image (m_temporal d) prev (input_format noisy)
    ∧ (if guideNormal (m_options d) then True
       else guide_normal guide = zero_image).
Proof.
  intros Hrun.
  pose proof (wp_elim _ _ _ _ _
                (denoise_details d noisy albedo normals prev flow w) Hrun) as H.
  cbv zeta in H. destruct H as (gn & k & l & l' & _ & _ & _ & _ & Hgn & Htr).
  eexists _, _. split; [by rewrite Htr, last_app|]. simpl.
  split_and!; try done. destruct (guideNormal (m_options d)); [done|].
  by apply Hgn.
Qed.

(** X7. Whatever the outcome, the tensor form logs the intensity call at
    most once and an invocation at most once, the invocation only after the
    intensity call; it never raises an exception, a null dereference occurs
    only after the intensity call, and an engine error carries a code other
    than success. *)
Theorem denoise_invokes_at_most_once d noisy albedo normals prev flow w r w' :
  denoise d noisy albedo normals prev flow w = (r, w') →
  match r with
  | Ok _ =>
      ∃ guide layers,
        w_trace w'
        = w_trace w ++ [intensity_event d noisy; invoke_event d guide layers]
  | Err (OptixError code) =>
      code ≠ OPTIX_SUCCESS
      ∧ (w_trace w' = w_trace w ++ [intensity_event d noisy]
         ∨ ∃ guide layers,
             w_trace w'
             = w_trace w
               ++ [intensity_event d noisy; invoke_event d guide layers])
  | Err NullDeref => w_trace w' = w_trace w ++ [intensity_event d noisy]
  | Err MemoryFault =>
      w_trace w' = w_trace w
      ∨ w_trace w' = w_trace w ++ [intensity_event d noisy]
  | Err (Exception _) => False
  end.
Proof.
  intros Hrun.
  pose proof (wp_elim _ _ _ _ _
                (denoise_details d noisy albedo normals prev flow w) Hrun) as H.
  cbv zeta in H. destruct r as [t|[msg|code| |]]; try done.
  destruct H as (gn & k & l & l' & _ & _ & _ & _ & _ & Htr).
  eexists _, _. exact Htr.
Qed.

(** X8. The array returned by the tensor form lives in device memory and
    holds as many floats as the noisy array, whatever the engine wrote. *)
Theorem denoise_output_size d noisy albedo normals prev flow w t w' :
  denoise d noisy albedo normals prev flow w = (Ok t, w') →
  ∃ k l l',
    w_mem w !! t_array noisy = Some (Floats k l)
    ∧ w_mem w' !! t_array t = Some (Floats Device l')
    ∧ length l' = length l.
Proof.
  intros Hrun.
  pose proof (wp_elim _ _ _ _ _
                (denoise_details d noisy albedo normals prev flow w) Hrun) as H.
  cbv zeta in H. destruct H as (gn & k & l & l' & Ht & En & Hout & Hlen & _).
  exists k, l, l'. by rewrite Ht.
Qed.

Lemma denoise_keeps_blocks d noisy albedo normals prev flow w r w' p b :
  denoise d noisy albedo normals prev flow w = (r, w') →
  w_mem w !! p = Some b →
  w_mem w' !! p = Some b ∧ (∀ t, r = Ok t → t_array t ≠ p).
Proof.
  intros Hrun Hp. split.
  - eapply lookup_weaken; [exact Hp|].
    exact (wp_elim _ _ _ _ _ (denoise_frame d noisy albedo normals prev flow w)
             Hrun).
  - intros t ->.
    pose proof (wp_elim _ _ _ _ _
                  (denoise_outcome d noisy albedo normals prev flow w) Hrun)
      as (-> & _).
    simpl. intros <-. rewrite fresh_ptr_fresh in Hp. done.
Qed.


(** X10. The result of one call of the tensor form is not overwritten by a
    later call on the same instance: the later result is another array and
    the earlier array holds the same floats afterwards. *)
Theorem denoise_successive_results d
    noisy1 albedo1 normals1 prev1 flow1 noisy2 albedo2 normals2 prev2 flow2
    w t1 w1 t2 w2 :
  denoise d noisy1 albedo1 normals1 prev1 flow1 w = (Ok t1, w1) →
  denoise d noisy2 albedo2 normals2 prev2 flow2 w1 = (Ok t2, w2) →
  t_array t2 ≠ t_array t1
  ∧ ∃ l, w_mem w1 !! t_array t1 = Some (Floats Device l)
         ∧ w_mem w2 !! t_array t1 = Some (Floats Device l).
Proof.
  intros Hrun1 Hrun2.
  pose proof (wp_elim _ _ _ _ _
                (denoise_outcome d noisy1 albedo1 normals1 prev1 flow1 w) Hrun1)
    as (-> & (l & Hl) & _).
  simpl.
  destruct (denoise_keeps_blocks _ _ _ _ _ _ _ _ _ _ _ Hrun2 Hl) as [Hkeep Hne].
  split; [by apply Hne|]. by exists l.
Qed.

End TensorTheorems.

Section NormalsMore.
Context {optix : OptixAPI}.

(** X11. The normal correction succeeds on an array of any length, also
    one that is no multiple of three, and keeps its length and kind. *)
Theorem correct_normals_any_size t w k l :
  w_mem w !! t_array t = Some (Floats k l) →
  ∃ l',
    correct_normals t w
    = (Ok tt, mkWorld (<[t_array t := Floats k l']> (w_mem w)) (w_optix w)
                (w_trace w))
    ∧ length l' = length l.
Proof.
  intros E. exists (corrected l). split; [by apply correct_normals_run|].
  apply length_corrected.
Qed.

(** X12. The normal correction negates the floats at the positions 0 and 2
    modulo 3 (the first and third components) and leaves those at the
    positions 1 modulo 3 as they are. *)
Theorem correct_normals_negates_xz t w k l :
  w_mem w !! t_array t = Some (Floats k l) →
  (Z.of_nat (length l) < 2 ^ 32)%Z →
  ∃ l',
    w_mem (snd (correct_normals t w)) !! t_array t = Some (Floats k l')
    ∧ ∀ j : nat,
        l' !! j
        = (λ x, if decide (j mod 3 = 1)%nat then x else fneg x) <$> l !! j.
Proof.
  intros E Hlen. exists (corrected l). split.
  - rewrite (correct_normals_run t w k l E). simpl. apply lookup_insert_eq.
  - intros j. by apply corrected_lookup.
Qed.

End NormalsMore.

Section ResolverMore.
Variables albedo_ch normals_ch flow_ch previous_denoised_ch noisy_ch : string.

Lemma resolver_step_done s entry :
  resolver_done s = true →
  resolver_step albedo_ch normals_ch flow_ch previous_denoised_ch noisy_ch
    s entry = s.
Proof.
  intros Hdone. unfold resolver_done in Hdone.
  apply andb_prop in Hdone as [Hdone Hnb].
  apply andb_prop in Hdone as [Hdone Hp].
  apply andb_prop in Hdone as [Hdone Hf].
  apply andb_prop in Hdone as [Ha Hn].
  apply bool_decide_eq_true in Hnb.
  unfold resolver_step.
  unfold match_albedo at 1. rewrite Ha. simpl.
  unfold match_normals at 1. rewrite Hn. simpl.
  unfold match_flow at 1. rewrite Hf. simpl.
  unfold match_previous_denoised at 1. rewrite Hp. simpl.
  unfold match_noisy. rewrite bool_decide_eq_false_2 by done. done.
Qed.

(** X13. The early exit of the scan over the sub-images changes nothing:
    the scan with the exit computes the same as trying every sub-image in
    turn. *)
Theorem resolver_loop_break_is_shortcut res s :
  resolver_loop albedo_ch normals_ch flow_ch previous_denoised_ch noisy_ch
    res s
  = foldl (resolver_step albedo_ch normals_ch flow_ch previous_denoised_ch
             noisy_ch) s res.
Proof.
  revert s. induction res as [|entry res IH]; intros s; simpl; [done|].
  destruct (resolver_done s) eqn:Hdone; [|apply IH].
  rewrite resolver_step_done by done.
  clear IH. induction res as [|entry' res IH]; simpl; [done|].
  by rewrite resolver_step_done.
Qed.

End ResolverMore.

Section BitmapMore.
Context {optix : OptixAPI} {bitmaps : BitmapAPI}.

(** A tensor is built exactly for the sub-images that were located. *)
Lemma wp_tensor_of_bmp_frame bmp sh w0 w :
  w_mem w0 ⊆ w_mem w →
  wp (tensor_of_bmp bmp sh) w (λ r w1,
    w_mem w0 ⊆ w_mem w1
    ∧ match r with
      | Ok o => o = None ↔ bmp = None
      | Err _ => True
      end).
Proof.
  intros Hsub. apply wp_tensor_of_bmp.
  - intros t w1 Hsub1 _ _ [b ->]. split; [by etrans|]. done.
  - intros ->. done.
  - done.
Qed.

Lemma wp_denoise_wrap_frame d nt a n p f w0 w :
  w_mem w0 ⊆ w_mem w →
  wp (denoised ← denoise d nt a n p f; wrap_denoised denoised) w (λ res w',
    w_mem w0 ⊆ w_mem w'
    ∧ ∀ r, res = Ok r →
           w_mem w0 !! bmp_data r = None ∧ ¬ missing_input d a n p f).
Proof.
  intros Hsub. wp_step.
  pose proof (denoise_frame d nt a n p f w) as Hframe.
  pose proof (denoise_outcome d nt a n p f w) as Hout.
  unfold wp in Hframe, Hout. unfold wp at 1.
  destruct (denoise d nt a n p f w) as [[t|e] w1]; simpl in *.
  2:{ split; [by etrans|done]. }
  destruct Hout as (_ & _ & Hmiss & _).
  apply wp_wrap_denoised.
  - intros b Hb dst. simpl. split.
    + etrans; [exact Hsub|]. etrans; [exact Hframe|].
      apply insert_subseteq, fresh_ptr_fresh.
    + intros r [= <-]. simpl. split; [|done].
      eapply lookup_weaken_None; [apply fresh_ptr_fresh|]. by etrans.
  - intros _. split; [by etrans|done].
Qed.


Lemma denoise_bitmap_frame d noisy_ albedo_ch normals_ch flow_ch
    previous_denoised_ch noisy_ch w :
  wp (denoise_bitmap d noisy_ albedo_ch normals_ch flow_ch
        previous_denoised_ch noisy_ch) w (λ res w',
    w_mem w ⊆ w_mem w'
    ∧ ∀ r, res = Ok r →
        w_mem w !! bmp_data r = None
        ∧ if decide (bmp_pixel_format noisy_ ≠ PF_MultiChannel)
          then ¬ missing_input d None None None None
          else ¬ unrequested_input d albedo_ch normals_ch flow_ch
                   previous_denoised_ch).
Proof.
  destruct (decide (bmp_pixel_format noisy_ ≠ PF_MultiChannel)) as [Hpf|Hpf].
  - rewrite denoise_bitmap_simple by done.
    wp_step. wp_step; [intros k l E Hlen|done].
    eapply wp_mono.
    { apply (wp_denoise_wrap_frame d _ None None None None w).
      simpl. apply insert_subseteq, fresh_ptr_fresh. }
    done.
  - apply dec_stable in Hpf. rewrite denoise_bitmap_structured by done.
    cbv zeta.
    pose proof (resolve_spec albedo_ch normals_ch flow_ch previous_denoised_ch
                  noisy_ch (Bitmap_split noisy_)) as Hs.
    cbv zeta in Hs. destruct Hs as (Ha & Hn & Hf & Hp & _).
    set (s := resolve _ _ _ _ _ _) in *. clearbody s.
    wp_step. unfold wp at 1. rewrite check_channels_run.
    case_bool_decide as Hnone; [done|].
    destruct (negb (found_albedo s)); [done|].
    destruct (negb (found_normals s)); [done|].
    destruct (negb (found_flow s)); [done|].
    destruct (negb (found_previous_denoised s)); [done|].
    simpl.
    destruct (noisy_bmp s) as [nb|] eqn:Enb; [|done].
    wp_step. wp_step. wp_step. wp_step; [intros k l E Hlen|done].
    set (w1 := mkWorld _ _ _).
    assert (w_mem w ⊆ w_mem w1) as Hsub1
      by (simpl; apply insert_subseteq, fresh_ptr_fresh).
    wp_step. eapply wp_mono; [by apply (wp_tensor_of_bmp_frame _ _ w)|].
    intros [ta|e] wa [Hsuba Hta]; [|done].
    wp_step. eapply wp_mono; [by apply (wp_tensor_of_bmp_frame _ _ w)|].
    intros [tn|e] wn [Hsubn Htn]; [|done].
    wp_step. eapply wp_mono; [by apply (wp_tensor_of_bmp_frame _ _ w)|].
    intros [tf|e] wf [Hsubf Htf]; [|done].
    wp_step. eapply wp_mono; [by apply (wp_tensor_of_bmp_frame _ _ w)|].
    intros [tp|e] wp0 [Hsubp Htp]; [|done].
    eapply wp_mono; [by apply (wp_denoise_wrap_frame d _ _ _ _ _ w)|].
    intros res w' [Hsub Hok]. split; [done|].
    intros r Hr. destruct (Hok r Hr) as [Hfresh Hmiss]. split; [done|].
    intros Hun. apply Hmiss. unfold missing_input.
    destruct Hun as [[Hflag ->]|[[Hflag ->]|[Hflag Hch]]].
    + left. split; [done|]. apply Hta. by rewrite Ha.
    + right. left. split; [done|]. apply Htn. by rewrite Hn.
    + right. right. split; [done|]. destruct Hch as [-> | ->].
      * right. apply Htf. by rewrite Hf.
      * left. apply Htp. by rewrite Hp.
Qed.

(** X14. On a multichannel image, a call that leaves empty the channel
    name of a guide the configuration reads (albedo, normals, or flow and
    previous result of a temporal instance) ends in an error. *)
Theorem denoise_bitmap_unrequested_guide d noisy_ albedo_ch normals_ch flow_ch
    previous_denoised_ch noisy_ch w :
  bmp_pixel_format noisy_ = PF_MultiChannel →
  unrequested_input d albedo_ch normals_ch flow_ch previous_denoised_ch →
  ∃ e, fst (denoise_bitmap d noisy_ albedo_ch normals_ch flow_ch
              previous_denoised_ch noisy_ch w) = Err e.
Proof.
  intros Hpf Hun.
  pose proof (denoise_bitmap_frame d noisy_ albedo_ch normals_ch flow_ch
                previous_denoised_ch noisy_ch w) as [_ H].
  destruct (fst (denoise_bitmap d noisy_ albedo_ch normals_ch flow_ch
                   previous_denoised_ch noisy_ch w)) as [r|e]; [|by exists e].
  destruct (H r eq_refl) as [_ Hdec].
  rewrite decide_False in Hdec by (intros Hne; by apply Hne). done.
Qed.


End BitmapMore.

Section TemporalRoles.
Context {optix : OptixAPI} {bitmaps : BitmapAPI}.

(** A tensor built from a sub-image holds the leading floats of its buffer. *)
Lemma wp_tensor_of_bmp_content bmp sh w :
  wp (tensor_of_bmp bmp sh) w (λ r w1,
    w_mem w ⊆ w_mem w1 ∧ w_trace w1 = w_trace w
    ∧ match r with
      | Ok (Some t) =>
          ∃ b k l, bmp = Some b ∧ t_shape t = sh
                   ∧ w_mem w1 !! bmp_data b = Some (Floats k l)
                   ∧ w_mem w1 !! t_array t
                     = Some (Floats Device (take (N.to_nat (shape_size sh)) l))
      | Ok None => bmp = None
      | Err _ => True
      end).
Proof.
  destruct bmp as [b|]; simpl; [|by apply wp_ret].
  apply wp_bind, wp_TensorXf_from_data; [|done].
  intros k l E Hlen. apply wp_ret. simpl.
  assert (w_mem w ⊆ <[fresh_ptr (w_mem w)
                      := Floats Device (take (N.to_nat (shape_size sh)) l)]>
                      (w_mem w)) as Hsub
    by apply insert_subseteq, fresh_ptr_fresh.
  split_and!; [done|done|].
  exists b, k, l. split_and!; try done.
  - by eapply lookup_weaken.
  - apply lookup_insert_eq.
Qed.

Lemma denoise_bitmap_temporal d noisy_ albedo_ch normals_ch flow_ch
    previous_denoised_ch noisy_ch w :
  m_temporal d = true →
  bmp_pixel_format noisy_ = PF_MultiChannel →
  wp (denoise_bitmap d noisy_ albedo_ch normals_ch flow_ch
        previous_denoised_ch noisy_ch) w (λ res w',
    ∀ r, res = Ok r →
      ∃ nb fb pb kf lf kp lp tr guide layers pf pp,
        lookup_layer noisy_ch (Bitmap_split noisy_) = Some nb
        ∧ lookup_layer flow_ch (Bitmap_split noisy_) = Some fb
        ∧ lookup_layer previous_denoised_ch (Bitmap_split noisy_) = Some pb
        ∧ w_trace w'
          = tr ++ [invoke_event d guide layers;
                   EvMallocMigrate (img_data (layer_output layers))
                     (bmp_data r) Host;
                   EvSyncThread]
        ∧ guide_flow guide
          = optixImage2DfromTensor
              (mkTensor pp [bmp_height noisy_; bmp_width noisy_;
                            bmp_channel_count nb])
              OPTIX_PIXEL_FORMAT_FLOAT2
        ∧ layer_previousOutput layers
          = optixImage2DfromTensor
              (mkTensor pf [bmp_height noisy_; bmp_width noisy_; 2])
              (if decide (bmp_channel_count nb = 3)
               then OPTIX_PIXEL_FORMAT_FLOAT3 else OPTIX_PIXEL_FORMAT_FLOAT4)
        ∧ w_mem w' !! bmp_data pb = Some (Floats kp lp)
        ∧ w_mem w' !! pp
          = Some (Floats Device
                    (take (N.to_nat (shape_size [bmp_height noisy_;
                                                 bmp_width noisy_;
                                                 bmp_channel_count nb])) lp))
        ∧ w_mem w' !! bmp_data fb = Some (Floats kf lf)
        ∧ w_mem w' !! pf
          = Some (Floats Device
                    (take (N.to_nat (shape_size [bmp_height noisy_;
                                                 bmp_width noisy_; 2])) lf))).
Proof.
  intros Htemp Hpf. rewrite denoise_bitmap_structured by done. cbv zeta.
  pose proof (resolve_spec albedo_ch normals_ch flow_ch previous_denoised_ch
                noisy_ch (Bitmap_split noisy_)) as Hs.
  cbv zeta in Hs. destruct Hs as (_ & _ & Hf & Hp & Hnb & _).
  set (s := resolve _ _ _ _ _ _) in *. clearbody s.
  wp_step. unfold wp at 1. rewrite check_channels_run.
  case_bool_decide as Hnone; [done|].
  destruct (negb (found_albedo s)); [done|].
  destruct (negb (found_normals s)); [done|].
  destruct (negb (found_flow s)); [done|].
  destruct (negb (found_previous_denoised s)); [done|].
  simpl.
  destruct (noisy_bmp s) as [nb|] eqn:Enb; [|done].
  wp_step. wp_step. wp_step. wp_step; [intros k l E Hlen|done].
  set (w1 := mkWorld _ _ _).
  set (nt := mkTensor _ _).
  wp_step. eapply wp_mono; [apply wp_tensor_of_bmp_content|].
  intros [ta|e] wa (Hsuba & _ & _); [|done].
  wp_step. eapply wp_mono; [apply wp_tensor_of_bmp_content|].
  intros [tn|e] wn (Hsubn & _ & _); [|done].
  wp_step. eapply wp_mono; [apply wp_tensor_of_bmp_content|].
  intros [tf|e] wf (Hsubf & _ & Htf); [|done].
  wp_step. eapply wp_mono; [apply wp_tensor_of_bmp_content|].
  intros [tp|e] wp0 (Hsubp & _ & Htp); [|done].
  wp_step.
  pose proof (denoise_details d nt ta tn tf tp wp0) as Hdet.
  pose proof (denoise_frame d nt ta tn tf tp wp0) as Hfr.
  pose proof (denoise_outcome d nt ta tn tf tp wp0) as Hout.
  unfold wp in Hdet, Hfr, Hout. unfold wp at 1.
  destruct (denoise d nt ta tn tf tp wp0) as [[t|e] w2]; simpl in *; [|done].
  destruct Hdet as (gn & k' & l0 & l' & Ht & _ & _ & _ & _ & Htr).
  destruct Hout as (_ & _ & Hmiss & _).
  apply wp_wrap_denoised; [|done].
  intros b Hb dst r [= <-]. simpl.
  destruct tf as [tf|].
  2:{ destruct Hmiss. right. right. split; [done|by right]. }
  destruct tp as [tp|].
  2:{ destruct Hmiss. right. right. split; [done|by left]. }
  destruct Htf as (fb & kf & lf & Efb & Hshf & Hsrcf & Hdstf).
  destruct Htp as (pb & kp & lp & Epb & Hshp & Hsrcp & Hdstp).
  rewrite Hf in Efb. rewrite Hp in Epb.
  destruct (String.eqb flow_ch EmptyString); [done|].
  destruct (String.eqb previous_denoised_ch EmptyString); [done|].
  assert (w_mem wp0 ⊆ <[dst := retype Host b]> (w_mem w2)) as Hsub.
  { etrans; [exact Hfr|]. apply insert_subseteq, fresh_ptr_fresh. }
  rewrite Htemp in Htr. simpl in Htr.
  destruct tf as [af shf], tp as [ap shp]. simpl in Hshf, Hshp, Hdstf, Hdstp.
  subst shf shp.
  eexists nb, fb, pb, kf, lf, kp, lp, (w_trace wp0 ++ [intensity_event d nt]),
    (mkGuideLayer _ _ _), (mkLayer _ _ (mkImage2D _ _ _ _ _ _)), af, ap.
  split_and!.
  - done.
  - done.
  - done.
  - rewrite Htr, Ht, <- !app_assoc. simpl. reflexivity.
  - done.
  - done.
  - eapply lookup_weaken; [exact Hsrcp|done].
  - eapply lookup_weaken; [exact Hdstp|done].
  - eapply lookup_weaken; [exact Hsrcf|]. by etrans.
  - eapply lookup_weaken; [exact Hdstf|]. by etrans.
Qed.

(** X20. On a temporal instance, every successful call of the structured
    mode hands the engine, as the flow guide image, a two-float-format
    descriptor over the tensor loaded from the sub-image named by the
    previous-denoised channel (with the noisy sub-image's channel count),
    and, as the previous output, a descriptor in the input format over the
    two-channel tensor loaded from the sub-image named by the flow channel:
    the two roles are exchanged for all inputs. *)
Theorem denoise_bitmap_temporal_roles d noisy_ albedo_ch normals_ch flow_ch
    previous_denoised_ch noisy_ch w r w' :
  m_temporal d = true →
  bmp_pixel_format noisy_ = PF_MultiChannel →
  denoise_bitmap d noisy_ albedo_ch normals_ch flow_ch previous_denoised_ch
    noisy_ch w = (Ok r, w') →
  ∃ nb fb pb kf lf kp lp tr guide layers pf pp,
    lookup_layer noisy_ch (Bitmap_split noisy_) = Some nb
    ∧ lookup_layer flow_ch (Bitmap_split noisy_) = Some fb
    ∧ lookup_layer previous_denoised_ch (Bitmap_split noisy_) = Some pb
    ∧ w_trace w'
      = tr ++ [invoke_event d guide layers;
               EvMallocMigrate (img_data (layer_output layers))
                 (bmp_data r) Host;
               EvSyncThread]
    ∧ guide_flow guide
      = optixImage2DfromTensor
          (mkTensor pp [bmp_height noisy_; bmp_width noisy_;
                        bmp_channel_count nb])
          OPTIX_PIXEL_FORMAT_FLOAT2
    ∧ layer_previousOutput layers
      = optixImage2DfromTensor
          (mkTensor pf [bmp_height noisy_; bmp_width noisy_; 2])
          (if decide (bmp_channel_count nb = 3)
           then OPTIX_PIXEL_FORMAT_FLOAT3 else OPTIX_PIXEL_FORMAT_FLOAT4)
    ∧ w_mem w' !! bmp_data pb = Some (Floats kp lp)
    ∧ w_mem w' !! pp
      = Some (Floats Device
                (take (N.to_nat (shape_size [bmp_height noisy_;
                                             bmp_width noisy_;
                                             bmp_channel_count nb])) lp))
    ∧ w_mem w' !! bmp_data fb = Some (Floats kf lf)
    ∧ w_mem w' !! pf
      = Some (Floats Device
                (take (N.to_nat (shape_size [bmp_height noisy_;
                                             bmp_width noisy_; 2])) lf)).
Proof.
  intros Htemp Hpf Hrun.
  exact (wp_elim _ _ _ _ _
           (denoise_bitmap_temporal d noisy_ albedo_ch normals_ch flow_ch
              previous_denoised_ch noisy_ch w Htemp Hpf) Hrun r eq_refl).
Qed.

End TemporalRoles.

Section TeardownFacts.
Context {optix : OptixAPI} {teardown : OptixTeardownAPI}.

Lemma jit_free_run p w b :
  p ≠ nullptr → w_mem w !! p = Some b →
  jit_free p w = (Ok tt, mkWorld (delete p (w_mem w)) (w_optix w) (w_trace w)).
Proof.
  intros Hp E. unfold jit_free. rewrite decide_False by done. by rewrite E.
Qed.

(** Teardown of an instance whose three buffers are allocated. *)
Lemma Denoiser_delete_run d w :
  NoDup [m_hdr_intensity d; m_state d; m_scratch d] →
  Forall (λ p, p ≠ nullptr ∧ is_Some (w_mem w !! p))
    [m_hdr_intensity d; m_state d; m_scratch d] →
  Denoiser_delete d w
  = let '(rv, s) := optixDenoiserDestroy (m_denoiser d) (w_optix w) in
    if decide (rv = OPTIX_SUCCESS)
    then (Ok tt,
          mkWorld (delete (m_scratch d)
                     (delete (m_state d)
                        (delete (m_hdr_intensity d) (w_mem w))))
            s (w_trace w))
    else (Err (OptixError rv), mkWorld (w_mem w) s (w_trace w)).
Proof.
  intros Hnd Hall.
  apply NoDup_cons in Hnd as [Hn1 Hnd]. apply NoDup_cons in Hnd as [Hn2 _].
  rewrite !not_elem_of_cons in Hn1. rewrite not_elem_of_cons in Hn2.
  destruct Hn1 as (Hhs & Hhc & _). destruct Hn2 as [Hsc _].
  apply Forall_cons in Hall as [[Hh0 [bh Eh]] Hall].
  apply Forall_cons in Hall as [[Hs0 [bs Es]] Hall].
  apply Forall_cons in Hall as [[Hc0 [bc Ec]] _].
  unfold Denoiser_delete, mbind, M_bind, bind, call_optixDenoiserDestroy.
  destruct (optixDenoiserDestroy _ _) as [rv s]. unfold jit_optix_check.
  case_decide; [|done]. simpl.
  erewrite jit_free_run by done. simpl.
  erewrite jit_free_run; [|done|simpl; by rewrite lookup_delete_ne].
  simpl.
  erewrite jit_free_run; [done|done|simpl].
  rewrite !lookup_delete_ne by done. done.
Qed.

Lemma Denoiser_new_owned input_size albedo normals temporal w d w1 :
  Denoiser_new input_size albedo normals temporal w = (Ok d, w1) →
  NoDup [m_hdr_intensity d; m_state d; m_scratch d]
  ∧ Forall (λ p, p ≠ nullptr ∧ is_Some (w_mem w1 !! p) ∧ w_mem w !! p = None)
      [m_hdr_intensity d; m_state d; m_scratch d]
  ∧ delete (m_scratch d)
      (delete (m_state d) (delete (m_hdr_intensity d) (w_mem w1)))
    = w_mem w.
Proof.
  intros Hrun.
  pose proof (wp_elim _ _ _ _ _
                (Denoiser_new_outcome input_size albedo normals temporal w)
                Hrun) as H.
  cbv zeta in H. destruct H as (_ & _ & Hst & Hsc & Hhdr & Hmem & _).
  rewrite Hmem. clear Hmem.
  set (mem1 := <[fresh_ptr (w_mem w) := Raw Device (m_state_size d)]> (w_mem w))
    in *.
  set (mem2 := <[fresh_ptr mem1 := Raw Device (m_scratch_size d)]> mem1) in *.
  rewrite Hst, Hsc, Hhdr. clear Hst Hsc Hhdr.
  set (st := fresh_ptr (w_mem w)) in *.
  set (sc := fresh_ptr mem1) in *. set (hdr := fresh_ptr mem2) in *.
  assert (w_mem w !! st = None) as Fst by apply fresh_ptr_fresh.
  assert (mem1 !! sc = None) as Fsc by apply fresh_ptr_fresh.
  assert (mem2 !! hdr = None) as Fhdr by apply fresh_ptr_fresh.
  assert (mem1 !! st = Some (Raw Device (m_state_size d))) as Est
    by apply lookup_insert_eq.
  assert (mem2 !! sc = Some (Raw Device (m_scratch_size d))) as Esc
    by apply lookup_insert_eq.
  assert (st ≠ sc) as Hne1 by congruence.
  assert (mem2 !! st = Some (Raw Device (m_state_size d))) as Est2.
  { unfold mem2. by rewrite lookup_insert_ne. }
  assert (st ≠ hdr) as Hne2 by congruence.
  assert (sc ≠ hdr) as Hne3 by congruence.
  assert (w_mem w !! sc = None) as Fsc0.
  { eapply lookup_weaken_None; [exact Fsc|]. by apply insert_subseteq. }
  assert (w_mem w !! hdr = None) as Fhdr0.
  { eapply lookup_weaken_None; [exact Fhdr|]. unfold mem2, mem1.
    etrans; [|by apply insert_subseteq]. by apply insert_subseteq. }
  split_and!.
  - repeat constructor; rewrite ?elem_of_cons, ?elem_of_nil; intuition congruence.
  - repeat constructor; try done; try apply fresh_ptr_not_null.
    + by rewrite lookup_insert_eq.
    + rewrite lookup_insert_ne by done. by rewrite Est2.
    + rewrite lookup_insert_ne by done. by rewrite Esc.
  - rewrite (delete_insert_id mem2 hdr) by done.
    unfold mem2. rewrite (delete_insert_ne mem1 st sc) by done.
    unfold mem1. rewrite (delete_insert_id (w_mem w) st) by done.
    by rewrite delete_insert_id.
Qed.

End TeardownFacts.

Section TeardownTheorems.
Context {optix : OptixAPI} {teardown : OptixTeardownAPI}.

Lemma Denoiser_delete_cases d w r w' :
  buffers_allocated d w →
  Denoiser_delete d w = (r, w') →
  w_trace w' = w_trace w
  ∧ ((r = Ok tt
      ∧ w_mem w'
        = delete (m_scratch d)
            (delete (m_state d) (delete (m_hdr_intensity d) (w_mem w))))
     ∨ (∃ code, r = Err (OptixError code) ∧ code ≠ OPTIX_SUCCESS
                ∧ w_mem w' = w_mem w)).
Proof.
  intros [Hnd Hall] Hrun. rewrite Denoiser_delete_run in Hrun by done.
  destruct (optixDenoiserDestroy _ _) as [rv s].
  case_decide; injection Hrun as <- <-; simpl; (split; [done|]).
  - by left.
  - right. by exists rv.
Qed.

(** X16. Destroying an instance right after constructing it gives back the
    memory as it was before the construction, and logs nothing. *)
Theorem Denoiser_new_delete_round_trip
    input_size albedo normals temporal w d w1 w2 :
  Denoiser_new input_size albedo normals temporal w = (Ok d, w1) →
  Denoiser_delete d w1 = (Ok tt, w2) →
  w_mem w2 = w_mem w ∧ w_trace w2 = w_trace w1.
Proof.
  intros Hnew Hdel.
  destruct (Denoiser_new_owned _ _ _ _ _ _ _ Hnew) as (Hnd & Hall & Hmem).
  assert (buffers_allocated d w1) as Hready.
  { split; [done|]. eapply Forall_impl; [exact Hall|]. simpl. tauto. }
  destruct (Denoiser_delete_cases _ _ _ _ Hready Hdel)
    as [Htr [[_ Hm]|(code & [=] & _)]].
  split; [|done]. by rewrite Hm.
Qed.

(** X17. The teardown of an instance whose buffers are allocated fails
    only when the engine refuses to destroy the handle; the error carries
    the code of the engine, and none of the three buffers is released. *)
Theorem Denoiser_delete_failure d w e w' :
  buffers_allocated d w →
  Denoiser_delete d w = (Err e, w') →
  ∃ code, e = OptixError code ∧ code ≠ OPTIX_SUCCESS
          ∧ w_mem w' = w_mem w ∧ buffers_allocated d w'.
Proof.
  intros Hready Hdel.
  destruct (Denoiser_delete_cases _ _ _ _ Hready Hdel)
    as [Htr [[[=] _]|(code & [= ->] & Hcode & Hm)]].
  exists code. split_and!; try done.
  unfold buffers_allocated in *. by rewrite Hm.
Qed.

(** X18. A tensor returned by the tensor form outlives the instance: after
    the teardown its array holds what it held, while the three buffers of
    the instance are gone. *)
Theorem Denoiser_delete_keeps_result
    d noisy albedo normals prev flow w t w1 w2 :
  buffers_allocated d w →
  denoise d noisy albedo normals prev flow w = (Ok t, w1) →
  Denoiser_delete d w1 = (Ok tt, w2) →
  w_mem w2 !! t_array t = w_mem w1 !! t_array t
  ∧ is_Some (w_mem w2 !! t_array t)
  ∧ Forall (λ p, w_mem w2 !! p = None)
      [m_hdr_intensity d; m_state d; m_scratch d].
Proof.
  intros [Hnd Hall] Hrun Hdel.
  assert (Forall (λ p, p ≠ nullptr ∧ is_Some (w_mem w1 !! p) ∧ t_array t ≠ p)
            [m_hdr_intensity d; m_state d; m_scratch d]) as Hall1.
  { eapply Forall_impl; [exact Hall|]. simpl. intros p [Hp [b Hb]].
    destruct (denoise_keeps_blocks _ _ _ _ _ _ _ _ _ _ _ Hrun Hb) as [Hb1 Hne].
    split_and!; [done|by exists b|by apply Hne]. }
  assert (buffers_allocated d w1) as Hready.
  { split; [done|]. eapply Forall_impl; [exact Hall1|]. simpl. tauto. }
  destruct (Denoiser_delete_cases _ _ _ _ Hready Hdel)
    as [_ [[_ Hm]|(code & [=] & _)]].
  apply Forall_cons in Hall1 as [(_ & _ & Hn1) Hall1].
  apply Forall_cons in Hall1 as [(_ & _ & Hn2) Hall1].
  apply Forall_cons in Hall1 as [(_ & _ & Hn3) _].
  assert (w_mem w2 !! t_array t = w_mem w1 !! t_array t) as Heq.
  { rewrite Hm. by rewrite !lookup_delete_ne by done. }
  split_and!; [done| |].
  - rewrite Heq.
    destruct (wp_elim _ _ _ _ _
                (denoise_outcome d noisy albedo normals prev flow w) Hrun)
      as (-> & (l & Hl) & _).
    simpl. by exists (Floats Device l).
  - apply NoDup_cons in Hnd as [Hd1 Hnd]. apply NoDup_cons in Hnd as [Hd2 _].
    rewrite !not_elem_of_cons in Hd1. rewrite not_elem_of_cons in Hd2.
    destruct Hd1 as (? & ? & _). destruct Hd2 as [? _].
    rewrite Hm. repeat constructor.
    + rewrite !lookup_delete_ne by done. apply lookup_delete_eq.
    + rewrite lookup_delete_ne by done. apply lookup_delete_eq.
    + apply lookup_delete_eq.
Qed.

End TeardownTheorems.

Section Description.

(** X19. The description shows the configuration and nothing else: two
    instances have the same description exactly when they have the same
    guide options and the same temporal flag. *)
Theorem Denoiser_to_string_injective d d' :
  Denoiser_to_string d = Denoiser_to_string d'
  ↔ m_options d = m_options d' ∧ m_temporal d = m_temporal d'.
Proof.
  unfold Denoiser_to_string. split.
  - destruct (m_options d) as [a n], (m_options d') as [a' n']. simpl.
    destruct a, n, (m_temporal d), a', n', (m_temporal d'); simpl;
      intros H; try done; discriminate H.
  - by intros [-> ->].
Qed.

End Description.

(** ** Shape groups *)

Section ShapeGroupFacts.
Context {boxes : BoundingBoxAPI}.

Lemma add_object_Ok g kv g' :
  add_object g kv = Ok g' ↔
  permitted (snd kv) = true
  ∧ g' = mkShapeGroup (m_id g) (m_shapes g ++ [snd kv])
           (bbox_expand (m_bbox g) (bbox (snd kv)))
           (m_has_meshes g || is_mesh (snd kv))
           (m_has_others g || negb (is_mesh (snd kv))).
Proof.
  unfold add_object, permitted. cbv zeta.
  destruct (String.eqb (class_name (snd kv)) "Instance"),
    (derives_from_Shape (snd kv)), (is_shapegroup (snd kv)),
    (is_emitter (snd kv)), (is_sensor (snd kv)); simpl;
    (split; [intros [= <-]; done|intros [Hp ->]; done]).
Qed.

(** The loop from any state of the group. *)
Lemma add_objects_Ok objects g g' :
  add_objects g objects = Ok g' ↔
  forallb permitted objects.*2 = true
  ∧ g' = mkShapeGroup (m_id g) (m_shapes g ++ objects.*2)
           (foldl bbox_expand (m_bbox g) (bbox <$> objects.*2))
           (m_has_meshes g || existsb is_mesh objects.*2)
           (m_has_others g || existsb (λ o, negb (is_mesh o)) objects.*2).
Proof.
  revert g. induction objects as [|kv rest IH]; intros g; simpl.
  - rewrite app_nil_r, !orb_false_r. destruct g. simpl.
    split; [intros [= <-]; done|by intros [_ ->]].
  - destruct (add_object g kv) as [g1|e] eqn:E.
    + apply add_object_Ok in E as [Hp ->]. rewrite IH, Hp. simpl.
      by rewrite <- app_assoc, !orb_assoc.
    + split; [done|]. intros [Hall _].
      apply andb_prop in Hall as [Hp _].
      assert (add_object g kv = Ok (mkShapeGroup (m_id g)
                (m_shapes g ++ [snd kv])
                (bbox_expand (m_bbox g) (bbox (snd kv)))
                (m_has_meshes g || is_mesh (snd kv))
                (m_has_others g || negb (is_mesh (snd kv))))) as E'
        by by apply add_object_Ok.
      congruence.
Qed.

(** X21. The constructor succeeds exactly when every object handed to it
    is a shape that is no instance, no shape group, no emitter and no
    sensor; the group then holds all the objects in their order, the
    bounding box grown by each in turn, and the two flags say whether some
    child is a mesh and whether some child is not. *)
Theorem ShapeGroup_new_accepts id objects g :
  ShapeGroup_new id objects = Ok g ↔
  forallb permitted objects.*2 = true
  ∧ g = mkShapeGroup id objects.*2
          (foldl bbox_expand bbox_initial (bbox <$> objects.*2))
          (existsb is_mesh objects.*2)
          (existsb (λ o, negb (is_mesh o)) objects.*2).
Proof. unfold ShapeGroup_new. by rewrite add_objects_Ok. Qed.

(** X22. The constructor reports the first object it cannot take, whatever
    follows it, and reports one reason for it: a class named Instance
    before anything else, then an object that is no shape, then a nested
    group, then an emitter, and a sensor last. *)
Theorem ShapeGroup_new_first_offender id pre name o post :
  forallb permitted pre.*2 = true →
  permitted o = false →
  ShapeGroup_new id (pre ++ (name, o) :: post)
  = Err (Exception
           (if String.eqb (class_name o) "Instance"
            then "Nested instancing is not permitted"
            else if negb (derives_from_Shape o)
            then unsupported_object_msg o
            else if is_shapegroup o
            then "Nested ShapeGroup is not permitted"
            else if is_emitter o
            then "Instancing of emitters is not supported"
            else "Instancing of sensors is not supported")).
Proof.
  intros Hpre Ho. unfold ShapeGroup_new.
  generalize (mkShapeGroup id [] bbox_initial false false).
  induction pre as [|kv pre IH]; intros g; simpl.
  - unfold permitted in Ho. unfold add_object. simpl.
    destruct (String.eqb (class_name o) "Instance"),
      (derives_from_Shape o), (is_shapegroup o), (is_emitter o),
      (is_sensor o); simpl in *; done.
  - simpl in Hpre. apply andb_prop in Hpre as [Hkv Hpre].
    destruct (add_object g kv) as [g1|e] eqn:E; [by apply IH|].
    assert (add_object g kv = Ok (mkShapeGroup (m_id g)
              (m_shapes g ++ [snd kv])
              (bbox_expand (m_bbox g) (bbox (snd kv)))
              (m_has_meshes g || is_mesh (snd kv))
              (m_has_others g || negb (is_mesh (snd kv))))) as E'
      by by apply add_object_Ok.
    congruence.
Qed.

(** X23. In a constructed group the mesh flag is set exactly when some
    child is a mesh, the other flag exactly when some child is not, and
    both are clear exactly when the group has no child; no child is an
    instance, a group, an emitter or a sensor. *)
Theorem ShapeGroup_new_flags id objects g :
  ShapeGroup_new id objects = Ok g →
  (m_has_meshes g = true ↔ ∃ o, o ∈ m_shapes g ∧ is_mesh o = true)
  ∧ (m_has_others g = true ↔ ∃ o, o ∈ m_shapes g ∧ is_mesh o = false)
  ∧ (m_has_meshes g = false ∧ m_has_others g = false ↔ m_shapes g = [])
  ∧ Forall (λ o, permitted o = true) (m_shapes g).
Proof.
  unfold ShapeGroup_new. rewrite add_objects_Ok. simpl.
  intros [Hall ->]. simpl. set (l := objects.*2) in *. clearbody l.
  split_and!.
  - rewrite existsb_exists. split; intros (o & Ho & Hm); exists o.
    + by rewrite list_elem_of_In.
    + by rewrite <- list_elem_of_In.
  - rewrite existsb_exists. split; intros (o & Ho & Hm); exists o.
    + rewrite list_elem_of_In. split; [done|]. by destruct (is_mesh o).
    + rewrite <- list_elem_of_In. split; [done|]. by rewrite Hm.
  - destruct l as [|o l]; simpl; [done|].
    split; [|done]. destruct (is_mesh o); simpl; by intros [? ?].
  - rewrite forallb_forall in Hall. apply Forall_forall. intros o Ho.
    apply Hall. by rewrite <- list_elem_of_In.
Qed.

End ShapeGroupFacts.

(** ** Closed instances on the reference engine *)

Section Closed.
Import Example.

Lemma constructed_instance albedo normals temporal :
  normals && negb albedo = false →
  constructed (1, 1) albedo normals temporal
  = (Ok (instance albedo normals temporal), ready albedo normals temporal).
Proof. destruct albedo, normals, temporal; intros [=]; vm_compute; reflexivity. Qed.

(** C1. On a temporal instance, the structured mode hands the tensor built
    from the sub-image named by the previous-denoised channel to the engine
    as the flow guide image, and the tensor built from the sub-image named
    by the flow channel as the previous output: the two roles are swapped. *)
Theorem temporal_roles_swapped :
  ∃ r w' guide layers,
    temporal_run = (Ok r, w')
    ∧ last_invoke (w_trace w') = Some (guide, layers)
    ∧ lookup_layer "flow" (Bitmap_split frame) = Some flow_layer
    ∧ w_mem w' !! bmp_data flow_layer = Some (Floats Host [fl 13; fl 14])
    ∧ lookup_layer "previous" (Bitmap_split frame) = Some previous_layer
    ∧ w_mem w' !! bmp_data previous_layer
      = Some (Floats Host [fl 15; fl 16; fl 17])
    ∧ pixels_behind w' (guide_flow guide) = Some [fl 15; fl 16; fl 17]
    ∧ pixels_behind w' (layer_previousOutput layers) = Some [fl 13; fl 14].
Proof.
  eexists _, _, _, _. split; [vm_compute; reflexivity|].
  split; [vm_compute; reflexivity|].
  repeat split; vm_compute; reflexivity.
Qed.

(** C6. After the scan each guide variable holds the first sub-image whose
    name is the requested one, or nothing when the requested name is empty,
    and its flag is set when the name is empty or some sub-image has it;
    the noisy variable holds the first sub-image with the noisy name.  For
    the layers diffuse, albedo, normals, noisy and the requests albedo,
    normals and noisy, exactly these three are located, the five checks
    pass, and the call on the reference engine returns an image. *)
Theorem resolve_first_match
    albedo_ch normals_ch flow_ch previous_denoised_ch noisy_ch res :
  let s := resolve albedo_ch normals_ch flow_ch previous_denoised_ch noisy_ch
             res in
  albedo_bmp s
  = (if String.eqb albedo_ch EmptyString then None
     else lookup_layer albedo_ch res)
  ∧ normals_bmp s
    = (if String.eqb normals_ch EmptyString then None
       else lookup_layer normals_ch res)
  ∧ flow_bmp s
    = (if String.eqb flow_ch EmptyString then None
       else lookup_layer flow_ch res)
  ∧ previous_denoised_bmp s
    = (if String.eqb previous_denoised_ch EmptyString then None
       else lookup_layer previous_denoised_ch res)
  ∧ noisy_bmp s = lookup_layer noisy_ch res
  ∧ found_albedo s
    = String.eqb albedo_ch EmptyString || has_layer albedo_ch res
  ∧ found_normals s
    = String.eqb normals_ch EmptyString || has_layer normals_ch res
  ∧ found_flow s
    = String.eqb flow_ch EmptyString || has_layer flow_ch res
  ∧ found_previous_denoised s
    = String.eqb previous_denoised_ch EmptyString
      || has_layer previous_denoised_ch res
  ∧ resolve "albedo" "normals" EmptyString EmptyString "noisy" render_layers
    = mkResolver (Some noisy_layer) (Some albedo_layer) (Some normals_layer)
        None None true true true true
  ∧ (∀ (optix : OptixAPI) (bitmaps : BitmapAPI) noisy_ (w : world),
       check_channels noisy_ "albedo" "normals" EmptyString EmptyString "noisy"
         (resolve "albedo" "normals" EmptyString EmptyString "noisy"
            render_layers) w
       = (Ok tt, w))
  ∧ ∃ r w', guided_run = (Ok r, w').
Proof.
  intros s.
  destruct (resolve_spec albedo_ch normals_ch flow_ch previous_denoised_ch
              noisy_ch res) as (Ha & Hn & Hf & Hp & Hnb & Hfa & Hfn & Hff & Hfp).
  split_and!; try done.
  eexists _, _. vm_compute. reflexivity.
Qed.

(** C9 as stated fails: an instance configured for 4 by 4 pixels returns a
    1 by 1 image for a 1 by 1 input. *)
Lemma result_resolution_not_configured :
  ¬ (∀ input_size albedo normals temporal w0 d w noisy_ albedo_ch normals_ch
       flow_ch previous_denoised_ch noisy_ch r w',
       Denoiser_new input_size albedo normals temporal w0 = (Ok d, w) →
       denoise_bitmap d noisy_ albedo_ch normals_ch flow_ch
         previous_denoised_ch noisy_ch w = (Ok r, w') →
       bmp_size r = input_size).
Proof.
  intros H.
  pose proof (H (4, 4) false false false start _ _ frame EmptyString
                EmptyString EmptyString EmptyString "noisy"%string _ _
                ltac:(vm_compute; reflexivity) ltac:(vm_compute; reflexivity))
    as Hsize.
  vm_compute in Hsize. discriminate.
Qed.

(** Instances of the theorems above on the reference engine. *)

Lemma correct_normals_involutive_witness :
  (correct_normals normals_tensor;; correct_normals normals_tensor) start
  = (Ok tt, start).
Proof.
  apply (correct_normals_involutive normals_tensor start Host
           [fl 7; fl 8; fl 9]); reflexivity.
Defined.

Lemma denoise_keeps_normals_witness :
  let run := denoise (instance true true false) noisy_tensor
               (Some albedo_tensor) (Some normals_tensor) None None
               (ready true true false) in
  w_mem (snd run) !! t_array normals_tensor
  = Some (Floats Host [fl 7; fl 8; fl 9])
  ∧ (∀ t, fst run = Ok t →
     ∃ cp params guide layers,
       w_mem (ready true true false) !! cp = None
       ∧ w_mem (snd run) !! cp
         = Some (Floats Device (corrected [fl 7; fl 8; fl 9]))
       ∧ last (w_trace (snd run))
         = Some (EvInvoke (m_denoiser (instance true true false))
                   jit_cuda_stream params
                   (m_state (instance true true false))
                   (m_state_size (instance true true false)) guide layers
                   1 0 0 (m_scratch (instance true true false))
                   (m_scratch_size (instance true true false)))
       ∧ guide_normal guide
         = optixImage2DfromTensor (mkTensor cp (t_shape normals_tensor))
             OPTIX_PIXEL_FORMAT_FLOAT3).
Proof.
  intros run.
  apply (denoise_keeps_normals (instance true true false) noisy_tensor
           (Some albedo_tensor) normals_tensor None None
           (ready true true false) Host [fl 7; fl 8; fl 9]
           (fst run) (snd run)).
  - reflexivity.
  - vm_compute. reflexivity.
  - vm_compute. reflexivity.
Defined.

Lemma denoise_preserves_shape_witness :
  ∃ t w',
    denoise (instance true true false) noisy_tensor (Some albedo_tensor)
      (Some normals_tensor) None None (ready true true false) = (Ok t, w')
    ∧ t_shape t = [1; 1; 3].
Proof.
  apply (denoise_preserves_shape (instance true true false) noisy_tensor
           (Some albedo_tensor) (Some normals_tensor) None None
           (ready true true false) 1 1 3).
  - reflexivity.
  - left. reflexivity.
  - exists Host, [fl 10; fl 11; fl 12]. vm_compute. reflexivity.
  - intros [[_ H]|[[_ H]|[H _]]]; discriminate.
  - intros nrm _ [= <-]. exists Host, [fl 7; fl 8; fl 9]. vm_compute.
    reflexivity.
  - intros code. vm_compute. discriminate.
Defined.

Lemma denoise_bitmap_missing_channel_witness :
  ∃ channel,
    channel ∈ ["noisy"; "missing_layer"; "normals"; EmptyString; EmptyString]
    ∧ (channel ∉ fst <$> Bitmap_split render)
    ∧ (denoise_bitmap (instance true true false) render "missing_layer"
         "normals" EmptyString EmptyString "noisy" (ready true true false)
       = (Err (Exception (missing_channel_msg render channel)),
          ready true true false))
    ∧ ∃ pre mid,
        missing_channel_msg render channel
        = (pre ++ channel ++ mid ++ Bitmap_to_string render)%string.
Proof.
  apply (denoise_bitmap_missing_channel (instance true true false) render
           "missing_layer" "normals" EmptyString EmptyString "noisy"
           (ready true true false)).
  - reflexivity.
  - right. left. split; [discriminate|].
    apply lookup_layer_None. reflexivity.
Defined.

Lemma denoise_bitmap_result_witness :
  ∃ channels,
    (if decide (bmp_pixel_format frame ≠ PF_MultiChannel)
     then channels = bmp_channel_count frame
     else ∃ nb, lookup_layer "noisy" (Bitmap_split frame) = Some nb
                ∧ channels = bmp_channel_count nb)
    ∧ bmp_pixel_format (mkBitmap PF_RGB Float32 (1, 1) 3 24)
      = (if decide (channels = 3) then PF_RGB else PF_RGBA)
    ∧ bmp_component_format (mkBitmap PF_RGB Float32 (1, 1) 3 24) = Float32
    ∧ bmp_channel_count (mkBitmap PF_RGB Float32 (1, 1) 3 24) = channels
    ∧ bmp_size (mkBitmap PF_RGB Float32 (1, 1) 3 24)
      = (to_uint (bmp_width frame), to_uint (bmp_height frame))
    ∧ ∃ src l tr params guide layers,
        src ≠ bmp_data (mkBitmap PF_RGB Float32 (1, 1) 3 24)
        ∧ w_mem (snd temporal_run) !! src = Some (Floats Device l)
        ∧ w_mem (snd temporal_run)
            !! bmp_data (mkBitmap PF_RGB Float32 (1, 1) 3 24)
          = Some (Floats Host l)
        ∧ img_data (layer_output layers) = src
        ∧ w_trace (snd temporal_run)
          = tr ++ [EvInvoke (m_denoiser (instance false false true))
                     jit_cuda_stream params
                     (m_state (instance false false true))
                     (m_state_size (instance false false true)) guide layers
                     1 0 0 (m_scratch (instance false false true))
                     (m_scratch_size (instance false false true));
                   EvMallocMigrate src
                     (bmp_data (mkBitmap PF_RGB Float32 (1, 1) 3 24)) Host;
                   EvSyncThread].
Proof.
  apply (denoise_bitmap_result (instance false false true) frame EmptyString
           EmptyString "flow" "previous" "noisy" (ready false false true)
           (mkBitmap PF_RGB Float32 (1, 1) 3 24) (snd temporal_run)).
  vm_compute. reflexivity.
Defined.

Lemma optional_inputs_guarded_witness :
  fst (denoise (instance true false false) noisy_tensor (Some albedo_tensor)
         None None None (ready true false false)) ≠ Err NullDeref
  ∧ (let outcome :=
       fst (denoise_bitmap (instance true false false) noisy_layer
              EmptyString EmptyString EmptyString EmptyString "noisy"
              (ready true false false)) in
     if guideAlbedo (m_options (instance true false false))
        || guideNormal (m_options (instance true false false))
        || m_temporal (instance true false false)
     then match outcome with
          | Ok _ => False
          | Err (Exception _) => False
          | Err (OptixError _) => True
          | Err NullDeref => True
          | Err MemoryFault =>
              ¬ holds_floats (w_mem (ready true false false))
                  (bmp_data noisy_layer)
                  (shape_size [bmp_height noisy_layer; bmp_width noisy_layer;
                               bmp_channel_count noisy_layer])
          end
     else outcome ≠ Err NullDeref).
Proof.
  apply (optional_inputs_guarded (instance true false false) noisy_tensor
           (Some albedo_tensor) None None None (ready true false false)
           noisy_layer EmptyString EmptyString EmptyString EmptyString
           "noisy").
  - intros [[_ H]|[[H _]|[H _]]]; discriminate.
  - discriminate.
Defined.

Lemma denoise_unguided_optionals_unread_witness :
  denoise (instance false false false) noisy_tensor None None None None
    (ready false false false)
  = denoise (instance false false false) noisy_tensor (Some albedo_tensor)
      (Some normals_tensor) (Some noisy_tensor) (Some albedo_tensor)
      (ready false false false).
Proof.
  apply (denoise_unguided_optionals_unread (instance false false false)
           noisy_tensor None None None None (Some albedo_tensor)
           (Some normals_tensor) (Some noisy_tensor) (Some albedo_tensor)
           (ready false false false)); reflexivity.
Defined.

End Closed.

(** ** Closed instances of the further properties *)

Section ClosedFurther.
Import Example.

Lemma optixImage2DfromTensor_packed_witness :
  let img := optixImage2DfromTensor noisy_tensor OPTIX_PIXEL_FORMAT_FLOAT3 in
  img_data img = t_array noisy_tensor
  ∧ img_width img = 1
  ∧ img_height img = 1
  ∧ img_pixelStrideInBytes img = 3 * 4
  ∧ img_rowStrideInBytes img = img_width img * img_pixelStrideInBytes img
  ∧ img_format img = OPTIX_PIXEL_FORMAT_FLOAT3.
Proof.
  apply (optixImage2DfromTensor_packed noisy_tensor OPTIX_PIXEL_FORMAT_FLOAT3
           1 1 3); reflexivity.
Defined.

Lemma Denoiser_new_buffers_witness :
  let d := instance true true false in
  NoDup [m_state d; m_scratch d; m_hdr_intensity d]
  ∧ Forall (λ p, p ≠ nullptr ∧ w_mem start !! p = None)
      [m_state d; m_scratch d; m_hdr_intensity d]
  ∧ w_mem (ready true true false) !! m_state d
    = Some (Raw Device (m_state_size d))
  ∧ w_mem (ready true true false) !! m_scratch d
    = Some (Raw Device (m_scratch_size d))
  ∧ w_mem (ready true true false) !! m_hdr_intensity d = Some (Raw Device 4)
  ∧ ∀ p, p ∉ [m_state d; m_scratch d; m_hdr_intensity d] →
         w_mem (ready true true false) !! p = w_mem start !! p.
Proof.
  apply (Denoiser_new_buffers (1, 1) true true false start
           (instance true true false) (ready true true false)).
  vm_compute. reflexivity.
Defined.

Lemma Denoiser_new_engine_calls_witness :
  w_trace (ready false false true)
  = w_trace start
    ++ [EvCreate jit_optix_context OPTIX_DENOISER_MODEL_KIND_TEMPORAL
          (mkOptions false false);
        EvComputeMemoryResources 7 1 1;
        EvSetup 7 jit_cuda_stream 1 1 17 16 18 8].
Proof.
  apply (Denoiser_new_engine_calls (1, 1) false false true start
           (instance false false true) (ready false false true)).
  vm_compute. reflexivity.
Defined.

Lemma Denoiser_new_failure_witness :
  let run := @Denoiser_new refusing (1, 1) false false false refused_start in
  fst run = Err (OptixError 7001)
  ∧ 7001%Z ≠ OPTIX_SUCCESS
  ∧ 17 ≠ 18 ∧ host_memory !! 17 = None ∧ host_memory !! 18 = None
  ∧ w_mem (snd run)
    = <[18 := Raw Device 8]> (<[17 := Raw Device 16]> host_memory).
Proof.
  intros run. split; [vm_compute; reflexivity|].
  exact (@Denoiser_new_failure refusing (1, 1) false false false refused_start
           (OptixError 7001) (snd run) eq_refl).
Defined.

Lemma denoise_engine_calls_witness :
  ∃ guide layers,
    w_trace (snd guided_tensor_run)
    = w_trace (ready true true false)
      ++ [intensity_event (instance true true false) noisy_tensor;
          invoke_event (instance true true false) guide layers]
    ∧ layer_input layers
      = optixImage2DfromTensor noisy_tensor (input_format noisy_tensor)
    ∧ layer_output layers
      = optixImage2DfromTensor (mkTensor 20 (t_shape noisy_tensor))
          (input_format noisy_tensor)
    ∧ 20 ≠ t_array noisy_tensor
    ∧ w_mem (ready true true false) !! 20 = None.
Proof.
  apply (denoise_engine_calls (instance true true false) noisy_tensor
           (Some albedo_tensor) (Some normals_tensor) None None
           (ready true true false) (mkTensor 20 [1; 1; 3])
           (snd guided_tensor_run)).
  vm_compute. reflexivity.
Defined.

Lemma denoise_guide_layers_witness :
  ∃ guide layers,
    last (w_trace (snd guided_tensor_run))
    = Some (invoke_event (instance true true false) guide layers)
    ∧ guide_albedo guide
      = optixImage2DfromTensor albedo_tensor OPTIX_PIXEL_FORMAT_FLOAT3
    ∧ guide_flow guide = zero_image
    ∧ layer_previousOutput layers = zero_image
    ∧ True.
Proof.
  apply (denoise_guide_layers (instance true true false) noisy_tensor
           (Some albedo_tensor) (Some normals_tensor) None None
           (ready true true false) (mkTensor 20 [1; 1; 3])
           (snd guided_tensor_run)).
  vm_compute. reflexivity.
Defined.

Lemma denoise_invokes_at_most_once_witness :
  ∃ guide layers,
    w_trace (snd guided_tensor_run)
    = w_trace (ready true true false)
      ++ [intensity_event (instance true true false) noisy_tensor;
          invoke_event (instance true true false) guide layers].
Proof.
  apply (denoise_invokes_at_most_once (instance true true false) noisy_tensor
           (Some albedo_tensor) (Some normals_tensor) None None
           (ready true true false) (Ok (mkTensor 20 [1; 1; 3]))
           (snd guided_tensor_run)).
  vm_compute. reflexivity.
Defined.

Lemma denoise_output_size_witness :
  ∃ k l l',
    w_mem (ready true true false) !! t_array noisy_tensor = Some (Floats k l)
    ∧ w_mem (snd guided_tensor_run) !! 20 = Some (Floats Device l')
    ∧ length l' = length l.
Proof.
  apply (denoise_output_size (instance true true false) noisy_tensor
           (Some albedo_tensor) (Some normals_tensor) None None
           (ready true true false) (mkTensor 20 [1; 1; 3])
           (snd guided_tensor_run)).
  vm_compute. reflexivity.
Defined.


Lemma denoise_successive_results_witness :
  22 ≠ 20
  ∧ ∃ l, w_mem (snd guided_tensor_run) !! 20 = Some (Floats Device l)
         ∧ w_mem (snd second_tensor_run) !! 20 = Some (Floats Device l).
Proof.
  apply (denoise_successive_results (instance true true false)
           noisy_tensor (Some albedo_tensor) (Some normals_tensor) None None
           noisy_tensor (Some albedo_tensor) (Some normals_tensor) None None
           (ready true true false) (mkTensor 20 [1; 1; 3])
           (snd guided_tensor_run) (mkTensor 22 [1; 1; 3])
           (snd second_tensor_run)).
  - vm_compute. reflexivity.
  - vm_compute. reflexivity.
Defined.

Lemma correct_normals_any_size_witness :
  ∃ l',
    correct_normals (mkTensor 15 [1; 1; 2]) start
    = (Ok tt, mkWorld (<[15 := Floats Host l']> (w_mem start)) (w_optix start)
                (w_trace start))
    ∧ length l' = length [fl 13; fl 14].
Proof.
  apply (correct_normals_any_size (mkTensor 15 [1; 1; 2]) start Host
           [fl 13; fl 14]).
  reflexivity.
Defined.

Lemma correct_normals_negates_xz_witness :
  ∃ l',
    w_mem (snd (correct_normals normals_tensor start)) !! 13
    = Some (Floats Host l')
    ∧ ∀ j : nat,
        l' !! j
        = (λ x, if decide (j mod 3 = 1)%nat then x else fneg x)
            <$> [fl 7; fl 8; fl 9] !! j.
Proof.
  apply (correct_normals_negates_xz normals_tensor start Host
           [fl 7; fl 8; fl 9]).
  - reflexivity.
  - reflexivity.
Defined.

Lemma denoise_bitmap_unrequested_guide_witness :
  ∃ e, fst (denoise_bitmap (instance true false false) render EmptyString
              EmptyString EmptyString EmptyString "noisy"
              (ready true false false)) = Err e.
Proof.
  apply (denoise_bitmap_unrequested_guide (instance true false false) render
           EmptyString EmptyString EmptyString EmptyString "noisy"
           (ready true false false)).
  - reflexivity.
  - left. split; reflexivity.
Defined.


Lemma Denoiser_new_delete_round_trip_witness :
  let w2 := snd (Denoiser_delete (instance true true false)
                   (ready true true false)) in
  w_mem w2 = w_mem start ∧ w_trace w2 = w_trace (ready true true false).
Proof.
  intros w2.
  apply (Denoiser_new_delete_round_trip (1, 1) true true false start
           (instance true true false) (ready true true false) w2).
  - vm_compute. reflexivity.
  - vm_compute. reflexivity.
Defined.

Lemma Denoiser_delete_failure_witness :
  let w' := snd (@Denoiser_delete _ stuck (instance true true false)
                   (ready true true false)) in
  ∃ code, OptixError 7001 = OptixError code ∧ code ≠ OPTIX_SUCCESS
          ∧ w_mem w' = w_mem (ready true true false)
          ∧ buffers_allocated (instance true true false) w'.
Proof.
  intros w'.
  apply (@Denoiser_delete_failure _ stuck (instance true true false)
           (ready true true false) (OptixError 7001) w').
  - split; [apply (bool_decide_unpack _); vm_compute; exact I|].
    repeat constructor; try discriminate; vm_compute; eexists; reflexivity.
  - vm_compute. reflexivity.
Defined.

Lemma Denoiser_delete_keeps_result_witness :
  let w1 := snd guided_tensor_run in
  let w2 := snd (Denoiser_delete (instance true true false) w1) in
  w_mem w2 !! 20 = w_mem w1 !! 20
  ∧ is_Some (w_mem w2 !! 20)
  ∧ Forall (λ p, w_mem w2 !! p = None) [19; 17; 18].
Proof.
  intros w1 w2.
  apply (Denoiser_delete_keeps_result (instance true true false) noisy_tensor
           (Some albedo_tensor) (Some normals_tensor) None None
           (ready true true false) (mkTensor 20 [1; 1; 3]) w1 w2).
  - split; [apply (bool_decide_unpack _); vm_compute; exact I|].
    repeat constructor; try discriminate; vm_compute; eexists; reflexivity.
  - vm_compute. reflexivity.
  - vm_compute. reflexivity.
Defined.

Lemma denoise_bitmap_temporal_roles_witness :
  ∃ nb fb pb kf lf kp lp tr guide layers pf pp,
    lookup_layer "noisy" (Bitmap_split frame) = Some nb
    ∧ lookup_layer "flow" (Bitmap_split frame) = Some fb
    ∧ lookup_layer "previous" (Bitmap_split frame) = Some pb
    ∧ w_trace (snd temporal_run)
      = tr ++ [invoke_event (instance false false true) guide layers;
               EvMallocMigrate (img_data (layer_output layers)) 24 Host;
               EvSyncThread]
    ∧ guide_flow guide
      = optixImage2DfromTensor
          (mkTensor pp [bmp_height frame; bmp_width frame;
                        bmp_channel_count nb])
          OPTIX_PIXEL_FORMAT_FLOAT2
    ∧ layer_previousOutput layers
      = optixImage2DfromTensor
          (mkTensor pf [bmp_height frame; bmp_width frame; 2])
          (if decide (bmp_channel_count nb = 3)
           then OPTIX_PIXEL_FORMAT_FLOAT3 else OPTIX_PIXEL_FORMAT_FLOAT4)
    ∧ w_mem (snd temporal_run) !! bmp_data pb = Some (Floats kp lp)
    ∧ w_mem (snd temporal_run) !! pp
      = Some (Floats Device
                (take (N.to_nat (shape_size [bmp_height frame;
                                             bmp_width frame;
                                             bmp_channel_count nb])) lp))
    ∧ w_mem (snd temporal_run) !! bmp_data fb = Some (Floats kf lf)
    ∧ w_mem (snd temporal_run) !! pf
      = Some (Floats Device
                (take (N.to_nat (shape_size [bmp_height frame;
                                             bmp_width frame; 2])) lf)).
Proof.
  apply (denoise_bitmap_temporal_roles (instance false false true) frame
           EmptyString EmptyString "flow" "previous" "noisy"
           (ready false false true) (mkBitmap PF_RGB Float32 (1, 1) 3 24)
           (snd temporal_run)).
  - reflexivity.
  - reflexivity.
  - vm_compute. reflexivity.
Defined.

End ClosedFurther.

Section ClosedShapes.
Import ShapeExample.

Lemma ShapeGroup_new_first_offender_witness :
  ShapeGroup_new "group" [("a", sphere); ("b", lamp); ("c", material)]
  = Err (Exception "Instancing of emitters is not supported").
Proof.
  apply (ShapeGroup_new_first_offender "group" [("a", sphere)] "b" lamp
           [("c", material)]); reflexivity.
Defined.

Lemma ShapeGroup_new_flags_witness :
  let g := mkShapeGroup "group" [sphere; mesh] (Some (0, 5)) true true in
  (m_has_meshes g = true ↔ ∃ o, o ∈ m_shapes g ∧ is_mesh o = true)
  ∧ (m_has_others g = true ↔ ∃ o, o ∈ m_shapes g ∧ is_mesh o = false)
  ∧ (m_has_meshes g = false ∧ m_has_others g = false ↔ m_shapes g = [])
  ∧ Forall (λ o, permitted o = true) (m_shapes g).
Proof.
  apply (ShapeGroup_new_flags "group" [("a", sphere); ("b", mesh)]).
  reflexivity.
Defined.

End ClosedShapes.
